(** * Mesh mock GraphQL API: the order query resolvers

    A shallow embedding of the resolvers of the mock server
    ([orderResolver], [ordersResolver], [addOrdersResolver]) together with
    the parts of JavaScript and of Ramda they rest on: strict equality and
    the relational operators on primitive values, [R.find], [R.filter],
    [R.allPass], [R.ascend], [R.descend], [R.sortWith], [R.take] and
    [R.splitEvery]. *)

From Stdlib Require Import ZArith NArith QArith List Bool Lia.
From Stdlib Require Import Strings.String Strings.Ascii.
From Stdlib Require Import Sorting.Sorted Sorting.Permutation.
From Equations Require Import Equations.
From stdpp Require Import gmap.

Import ListNotations.
Local Open Scope Z_scope.

(** ** JavaScript primitive values *)

(** A JavaScript string is a sequence of UTF-16 code units. *)
Definition JsString := list N.

(** String literals of the source, as code units. *)
Definition units (s : string) : JsString :=
  List.map N_of_ascii (list_ascii_of_string s).

(** A JavaScript number: every IEEE double is NaN, an infinity or a finite
    rational (the two zeros are not told apart by any operator used here). *)
Inductive Number :=
| NaN
| NegInfinity
| Finite (q : Q)
| PosInfinity.

Definition IntToNumber (z : Z) : Number := Finite (inject_Z z).

(** The values of type [number | string]. *)
Inductive JsValue :=
| JsNum (x : Number)
| JsStr (s : JsString).

Definition Qltb (a b : Q) : bool := negb (Qle_bool b a).

(** Number::lessThan: [None] is the result undefined, given when an operand
    is NaN. *)
Definition Number_lessThan (x y : Number) : option bool :=
  match x, y with
  | NaN, _ | _, NaN => None
  | Finite a, Finite b => Some (Qltb a b)
  | NegInfinity, NegInfinity => Some false
  | NegInfinity, _ => Some true
  | _, NegInfinity => Some false
  | PosInfinity, _ => Some false
  | _, PosInfinity => Some true
  end.

(** Number::equal. *)
Definition Number_equal (x y : Number) : bool :=
  match x, y with
  | Finite a, Finite b => Qeq_bool a b
  | NegInfinity, NegInfinity => true
  | PosInfinity, PosInfinity => true
  | _, _ => false
  end.

(** Equality of two strings: the same sequence of code units. *)
Fixpoint String_equal (s t : JsString) : bool :=
  match s, t with
  | [], [] => true
  | c :: s', d :: t' => N.eqb c d && String_equal s' t'
  | _, _ => false
  end.

(** The string case of IsLessThan: [s] is less than [t] when [s] is a proper
    prefix of [t], or when at the first index where they differ the code
    unit of [s] is the smaller one. *)
Fixpoint String_lessThan (s t : JsString) : bool :=
  match s, t with
  | _, [] => false
  | [], _ :: _ => true
  | c :: s', d :: t' =>
      if N.ltb c d then true
      else if N.ltb d c then false
      else String_lessThan s' t'
  end.

(** ** Data model (the declarations of [types.ts]) *)

Record Order := {
  chainId : Z;
  exchangeAddress : JsString;
  makerAddress : JsString;
  makerAssetData : JsString;
  makerAssetAmount : JsString;
  makerFeeAssetData : JsString;
  makerFee : JsString;
  takerAddress : JsString;
  takerAssetData : JsString;
  takerAssetAmount : JsString;
  takerFeeAssetData : JsString;
  takerFee : JsString;
  senderAddress : JsString;
  feeRecipientAddress : JsString;
  expirationTimeSeconds : JsString;
  salt : JsString;
  signature : JsString
}.

(** [NewOrder] declares the same fields as [Order]. *)
Definition NewOrder := Order.

(** [OrderWithMetadata extends Order]. *)
Record OrderWithMetadata := {
  base : Order;
  hash : JsString;
  remainingFillableTakerAssetAmount : JsString
}.

(** [OrderField = keyof OrderWithMetadata]. *)
Module OrderField.
Inductive t :=
| chainId | exchangeAddress | makerAddress | makerAssetData
| makerAssetAmount | makerFeeAssetData | makerFee | takerAddress
| takerAssetData | takerAssetAmount | takerFeeAssetData | takerFee
| senderAddress | feeRecipientAddress | expirationTimeSeconds | salt
| signature | hash | remainingFillableTakerAssetAmount.
End OrderField.

(** The property access [order[field]]. *)
Definition prop (order : OrderWithMetadata) (field : OrderField.t) : JsValue :=
  match field with
  | OrderField.chainId => JsNum (IntToNumber (chainId (base order)))
  | OrderField.exchangeAddress => JsStr (exchangeAddress (base order))
  | OrderField.makerAddress => JsStr (makerAddress (base order))
  | OrderField.makerAssetData => JsStr (makerAssetData (base order))
  | OrderField.makerAssetAmount => JsStr (makerAssetAmount (base order))
  | OrderField.makerFeeAssetData => JsStr (makerFeeAssetData (base order))
  | OrderField.makerFee => JsStr (makerFee (base order))
  | OrderField.takerAddress => JsStr (takerAddress (base order))
  | OrderField.takerAssetData => JsStr (takerAssetData (base order))
  | OrderField.takerAssetAmount => JsStr (takerAssetAmount (base order))
  | OrderField.takerFeeAssetData => JsStr (takerFeeAssetData (base order))
  | OrderField.takerFee => JsStr (takerFee (base order))
  | OrderField.senderAddress => JsStr (senderAddress (base order))
  | OrderField.feeRecipientAddress => JsStr (feeRecipientAddress (base order))
  | OrderField.expirationTimeSeconds =>
      JsStr (expirationTimeSeconds (base order))
  | OrderField.salt => JsStr (salt (base order))
  | OrderField.signature => JsStr (signature (base order))
  | OrderField.hash => JsStr (hash order)
  | OrderField.remainingFillableTakerAssetAmount =>
      JsStr (remainingFillableTakerAssetAmount order)
  end.

(** The enums are strings at run time; the resolvers switch on them and
    keep a default branch, so a kind or a direction is any string. *)
Module FilterKind.
Definition Equal := units "EQUAL".
Definition NotEqual := units "NOT_EQUAL".
Definition Greater := units "GREATER".
Definition GreaterOrEqual := units "GREATER_OR_EQUAL".
Definition Less := units "LESS".
Definition LessOrEqual := units "LESS_OR_EQUAL".
End FilterKind.

Module SortDirection.
Definition Asc := units "ASC".
Definition Desc := units "DESC".
End SortDirection.

Module OrderFilter.
Record t := { field : OrderField.t; kind : JsString; value : JsValue }.
End OrderFilter.

Module OrderSort.
Record t := { field : OrderField.t; direction : JsString }.
End OrderSort.

Module OrderArgs.
Record t := { hash : JsString }.
End OrderArgs.

Module OrdersArgs.
Record t := {
  sort : list OrderSort.t;
  filters : list OrderFilter.t;
  limit : Z
}.
End OrdersArgs.

Module AddOrdersArgs.
Record t := { orders : list NewOrder }.
End AddOrdersArgs.

Inductive RejectedOrderCode :=
| EthRPCRequestFailed
| InvalidMakerAssetAmount
| InvalidTakerAssetAmount.

Module AcceptedOrderResult.
Record t := { order : OrderWithMetadata; isNew : bool }.
End AcceptedOrderResult.

(** The fields the resolver writes into a rejected result. *)
Module RejectedOrderResult.
Record t := {
  hash : JsString;
  order : Order;
  code : RejectedOrderCode;
  message : JsString
}.
End RejectedOrderResult.

Module AddOrdersResults.
Record t := {
  accepted : list AcceptedOrderResult.t;
  rejected : list RejectedOrderResult.t
}.
End AddOrdersResults.

(** ** Completions: a returned value or a thrown [Error] with its message *)

Inductive Completion (A : Type) :=
| Normal (a : A)
| Throw (message : JsString).
Arguments Normal {A} a.
Arguments Throw {A} message.

Definition bind {A B} (c : Completion A) (k : A -> Completion B)
  : Completion B :=
  match c with
  | Normal a => k a
  | Throw m => Throw m
  end.

Notation "'let*' x ':=' c 'in' k" := (bind c (fun x => k))
  (at level 10, x name, c at level 100, k at level 200).

(** [Array.prototype.map] with a callback that may throw: the elements are
    visited from left to right and the first exception leaves the loop. *)
Fixpoint Array_map {A B} (f : A -> Completion B) (l : list A)
  : Completion (list B) :=
  match l with
  | [] => Normal []
  | x :: l' =>
      let* y := f x in
      let* ys := Array_map f l' in
      Normal (y :: ys)
  end.

(** An index argument of [Array.prototype.slice], clamped to the length;
    [None] stands for [Infinity]. *)
Definition relative_index (len : nat) (i : option Z) : nat :=
  match i with
  | None => len
  | Some z =>
      if z <? 0 then Z.to_nat (Z.max (Z.of_nat len + z) 0)
      else Nat.min (Z.to_nat z) len
  end.

Definition Array_slice {A} (from to : option Z) (l : list A) : list A :=
  let k := relative_index (length l) from in
  let final := relative_index (length l) to in
  firstn (final - k) (skipn k l).

(** [Array.prototype.sort] with a comparator.  The sort is stable
    (ECMAScript 2019); it is modelled by insertion from the right, each
    element being placed before the first element it does not follow. *)
Fixpoint sort_insert {A} (comparefn : A -> A -> Z) (x : A) (l : list A)
  : list A :=
  match l with
  | [] => [x]
  | y :: l' =>
      if comparefn x y <=? 0 then x :: y :: l'
      else y :: sort_insert comparefn x l'
  end.

Fixpoint Array_sort {A} (comparefn : A -> A -> Z) (l : list A) : list A :=
  match l with
  | [] => []
  | x :: l' => sort_insert comparefn x (Array_sort comparefn l')
  end.

(** ** Ramda *)

Module R.

(** [R.find(pred, list)]: the first element that satisfies [pred], or
    undefined. *)
Fixpoint find {A} (pred : A -> bool) (xs : list A) : option A :=
  match xs with
  | [] => None
  | x :: l' => if pred x then Some x else find pred l'
  end.

(** [R.filter(pred, list)] builds a new array. *)
Fixpoint filter {A} (pred : A -> bool) (xs : list A) : list A :=
  match xs with
  | [] => []
  | x :: l' => if pred x then x :: filter pred l' else filter pred l'
  end.

(** [R.allPass(preds)]: false at the first predicate that fails, true
    when the loop runs to its end. *)
Fixpoint allPass {A} (preds : list (A -> bool)) (x : A) : bool :=
  match preds with
  | [] => true
  | p :: ps => if p x then allPass ps x else false
  end.

(** [R.slice(from, to, list)] is [Array.prototype.slice]. *)
Definition slice {A} (from to : option Z) (xs : list A) : list A :=
  Array_slice from to xs.

(** [R.take(n, xs) = slice(0, n < 0 ? Infinity : n, xs)]. *)
Definition take {A} (n : Z) (xs : list A) : list A :=
  slice (Some 0) (if n <? 0 then None else Some n) xs.

(** The comparator that [R.sortWith] hands to [sort]: the result of the
    first function of [fns] that does not return 0. *)
Fixpoint sortWith_comparator {A} (fns : list (A -> A -> Z)) (a b : A) : Z :=
  match fns with
  | [] => 0
  | f :: fns' =>
      let result := f a b in
      if result =? 0 then sortWith_comparator fns' a b else result
  end.

(** [R.sortWith(fns, list)] sorts a copy of [list]. *)
Definition sortWith {A} (fns : list (A -> A -> Z)) (xs : list A)
  : list A :=
  Array_sort (sortWith_comparator fns) (slice (Some 0) None xs).

(** The loop of [R.splitEvery]: slices of [n] elements until the list is
    used up.  The caller has checked that [n] is positive. *)
Equations? splitEvery_loop {A} (n : nat) (l : list A) : list (list A)
  by wf (length l) lt :=
splitEvery_loop 0 _ := [];
splitEvery_loop (S m) [] := [];
splitEvery_loop (S m) (x :: l') :=
  firstn (S m) (x :: l') :: splitEvery_loop (S m) (skipn (S m) (x :: l')).
Proof.
  simpl. pose proof (length_skipn m l'). lia.
Qed.

Definition splitEvery {A} (n : Z) (xs : list A)
  : Completion (list (list A)) :=
  if n <=? 0 then
    Throw (units "First argument to splitEvery must be a positive integer")
  else Normal (splitEvery_loop (Z.to_nat n) xs).

End R.

Section Resolvers.

(** ToNumber on a string: the conversion that the relational operators apply
    to a string operand when the other operand is a number.  Parsing and
    rounding to a double are left to the engine; the conversion is a
    parameter of the development. *)
Variable StringToNumber : JsString -> Number.

Definition ToNumber (v : JsValue) : Number :=
  match v with
  | JsNum x => x
  | JsStr s => StringToNumber s
  end.

(** IsStrictlyEqual, the operator [===]. *)
Definition IsStrictlyEqual (x y : JsValue) : bool :=
  match x, y with
  | JsNum a, JsNum b => Number_equal a b
  | JsStr s, JsStr t => String_equal s t
  | _, _ => false
  end.

(** IsLessThan on primitive values. *)
Definition IsLessThan (x y : JsValue) : option bool :=
  match x, y with
  | JsStr px, JsStr py => Some (String_lessThan px py)
  | _, _ => Number_lessThan (ToNumber x) (ToNumber y)
  end.

(** The operators [<], [>], [<=] and [>=]. *)
Definition js_lt (a b : JsValue) : bool :=
  match IsLessThan a b with Some r => r | None => false end.

Definition js_gt (a b : JsValue) : bool :=
  match IsLessThan b a with Some r => r | None => false end.

Definition js_le (a b : JsValue) : bool :=
  match IsLessThan b a with Some r => negb r | None => false end.

Definition js_ge (a b : JsValue) : bool :=
  match IsLessThan a b with Some r => negb r | None => false end.

(** [R.ascend(fn)] and [R.descend(fn)]. *)
Definition ascend {A} (fn : A -> JsValue) (a b : A) : Z :=
  let aa := fn a in
  let bb := fn b in
  if js_lt aa bb then -1 else if js_gt aa bb then 1 else 0.

Definition descend {A} (fn : A -> JsValue) (a b : A) : Z :=
  let aa := fn a in
  let bb := fn b in
  if js_gt aa bb then -1 else if js_lt aa bb then 1 else 0.

(** ** The resolvers *)

(** The store the resolvers read.  The module [./mock_orders] that exports
    it is not part of the sources at hand: the store is a parameter. *)
Variable mockOrders : list OrderWithMetadata.

(** [R.propEq("hash", args.hash)] on records whose hash is a string. *)
Definition propEq_hash (val : JsString) (obj : OrderWithMetadata) : bool :=
  String_equal val (hash obj).

Definition orderResolver (args : OrderArgs.t) : option OrderWithMetadata :=
  R.find (propEq_hash (OrderArgs.hash args)) mockOrders.

(** The callback of [args.filters.map]: one predicate for each filter. *)
Definition compileFilter (filter : OrderFilter.t)
  : Completion (OrderWithMetadata -> bool) :=
  let field := OrderFilter.field filter in
  let value := OrderFilter.value filter in
  let kind := OrderFilter.kind filter in
  if String_equal kind FilterKind.Equal then
    Normal (fun order => IsStrictlyEqual (prop order field) value)
  else if String_equal kind FilterKind.NotEqual then
    Normal (fun order => negb (IsStrictlyEqual (prop order field) value))
  else if String_equal kind FilterKind.Greater then
    Normal (fun order => js_gt (prop order field) value)
  else if String_equal kind FilterKind.GreaterOrEqual then
    Normal (fun order => js_ge (prop order field) value)
  else if String_equal kind FilterKind.Less then
    Normal (fun order => js_lt (prop order field) value)
  else if String_equal kind FilterKind.LessOrEqual then
    Normal (fun order => js_le (prop order field) value)
  else Throw (units "unexpected filter kind: " ++ kind).

(** The callback of [args.sort.map]: one comparator for each sort. *)
Definition compileSort (sort : OrderSort.t)
  : Completion (OrderWithMetadata -> OrderWithMetadata -> Z) :=
  let field := OrderSort.field sort in
  let direction := OrderSort.direction sort in
  if String_equal direction SortDirection.Asc then
    Normal (ascend (fun order => prop order field))
  else if String_equal direction SortDirection.Desc then
    Normal (descend (fun order => prop order field))
  else Throw (units "unexpected sort direction: " ++ direction).

Definition ordersResolver (args : OrdersArgs.t)
  : Completion (list OrderWithMetadata) :=
  let* filters := Array_map compileFilter (OrdersArgs.filters args) in
  let* sorters := Array_map compileSort (OrdersArgs.sort args) in
  Normal
    (R.take (OrdersArgs.limit args)
       (R.sortWith sorters
          (R.filter (R.allPass filters) mockOrders))).

Definition acceptedResult (order : NewOrder) : AcceptedOrderResult.t :=
  {| AcceptedOrderResult.order :=
       {| base := order;
          hash := units
            "0x06d15403630b6d83fbacbf0864eb76c2db3d6e6fc8adec8a95fc536593f17c53";
          remainingFillableTakerAssetAmount := units "150000" |};
     AcceptedOrderResult.isNew := true |}.

Definition rejectedResult (order : NewOrder) : RejectedOrderResult.t :=
  {| RejectedOrderResult.hash := units
       "0x06d15403630b6d83fbacbf0864eb76c2db3d6e6fc8adec8a95fc536593f17c53";
     RejectedOrderResult.order := order;
     RejectedOrderResult.code := EthRPCRequestFailed;
     RejectedOrderResult.message :=
       units "network request to Ethereum RPC endpoint failed" |}.

(** The destructuring [[acceptedOrders, rejectedOrders] = ...] reads the
    indices 0 and 1; a missing index gives undefined, for which
    [== null] holds. *)
Definition addOrdersResolver (args : AddOrdersArgs.t)
  : Completion AddOrdersResults.t :=
  let* chunks := R.splitEvery 1 (AddOrdersArgs.orders args) in
  let acceptedOrders := nth_error chunks 0 in
  let rejectedOrders := nth_error chunks 1 in
  let accepted :=
    match acceptedOrders with
    | None => []
    | Some l => List.map acceptedResult l
    end in
  let rejected :=
    match rejectedOrders with
    | None => []
    | Some l => List.map rejectedResult l
    end in
  Normal {| AddOrdersResults.accepted := accepted;
            AddOrdersResults.rejected := rejected |}.

(** ** The resolvers over a heap of arrays

    Arrays are mutable objects: the same resolvers again, with every array
    held at a reference of a heap, an allocation for each array an
    operation builds and a write for the in-place [sort]. *)

Definition Run (A : Type) : Type :=
  gmap positive (list OrderWithMetadata)
  -> Completion A * gmap positive (list OrderWithMetadata).

Definition run_ret {A} (a : A) : Run A := fun h => (Normal a, h).

Definition run_bind {A B} (c : Run A) (k : A -> Run B) : Run B :=
  fun h =>
    match c h with
    | (Normal a, h') => k a h'
    | (Throw m, h') => (Throw m, h')
    end.

Definition run_lift {A} (c : Completion A) : Run A := fun h => (c, h).

(** A new array object, at a reference not in use. *)
Definition Array_new (xs : list OrderWithMetadata) : Run positive :=
  fun h => let r := fresh (dom h) in (Normal r, <[r := xs]> h).

Definition Array_read (r : positive) : Run (list OrderWithMetadata) :=
  fun h =>
    match h !! r with
    | Some xs => (Normal xs, h)
    | None => (Throw (units "TypeError"), h)
    end.

Definition Array_write (r : positive) (xs : list OrderWithMetadata)
  : Run unit :=
  fun h => (Normal tt, <[r := xs]> h).

(** [Array.prototype.sort] rearranges the array it is called on and
    returns it. *)
Definition Array_sort_in_place
    (comparefn : OrderWithMetadata -> OrderWithMetadata -> Z) (r : positive)
  : Run positive :=
  run_bind (Array_read r) (fun xs =>
  run_bind (Array_write r (Array_sort comparefn xs)) (fun _ =>
  run_ret r)).

Definition run_slice (from to : option Z) (r : positive) : Run positive :=
  run_bind (Array_read r) (fun xs => Array_new (R.slice from to xs)).

Definition run_find (pred : OrderWithMetadata -> bool) (r : positive)
  : Run (option OrderWithMetadata) :=
  run_bind (Array_read r) (fun xs => run_ret (R.find pred xs)).

Definition run_filter (pred : OrderWithMetadata -> bool) (r : positive)
  : Run positive :=
  run_bind (Array_read r) (fun xs => Array_new (R.filter pred xs)).

(** [Array.prototype.slice.call(list, 0).sort(...)]. *)
Definition run_sortWith
    (fns : list (OrderWithMetadata -> OrderWithMetadata -> Z)) (r : positive)
  : Run positive :=
  run_bind (run_slice (Some 0) None r) (fun copy =>
  Array_sort_in_place (R.sortWith_comparator fns) copy).

Definition run_take (n : Z) (r : positive) : Run positive :=
  run_slice (Some 0) (if n <? 0 then None else Some n) r.

(** The reference of the array [mockOrders]. *)
Variable mockOrders_ref : positive.

Definition orderResolver_run (args : OrderArgs.t)
  : Run (option OrderWithMetadata) :=
  run_find (propEq_hash (OrderArgs.hash args)) mockOrders_ref.

Definition ordersResolver_run (args : OrdersArgs.t) : Run positive :=
  run_bind (run_lift (Array_map compileFilter (OrdersArgs.filters args)))
    (fun filters =>
  run_bind (run_lift (Array_map compileSort (OrdersArgs.sort args)))
    (fun sorters =>
  run_bind (run_filter (R.allPass filters) mockOrders_ref) (fun r1 =>
  run_bind (run_sortWith sorters r1) (fun r2 =>
  run_take (OrdersArgs.limit args) r2)))).

End Resolvers.

(** ** Sample data

    The first three orders of the list [mockOrders] of the single-file
    version of the server. *)

Definition sampleOrder0 : OrderWithMetadata :=
  {| base := {|
       chainId := 1;
       exchangeAddress :=
         units "0x61935cbdd02287b511119ddb11aeb42f1593b7ef";
       makerAddress :=
         units "0xd965a4f8f5b49dd2f5ba83ef4e61880d0646fd00";
       makerAssetData :=
         units "0xf47261b0000000000000000000000000c02aaa39b223fe8d0a0e5c4f27ead9083c756cc2";
       makerAssetAmount :=
         units "50000000000000000";
       makerFeeAssetData :=
         units "0xf47261b0000000000000000000000000c02aaa39b223fe8d0a0e5c4f27ead9083c756cc2";
       makerFee :=
         units "1250000000000000";
       takerAddress :=
         units "0x0000000000000000000000000000000000000000";
       takerAssetData :=
         units "0xa7cb5fb7000000000000000000000000d4690a51044db77d91d7aa8f7a3a5ad5da331af0000000000000000000000000000000000000000000000000000000000000008000000000000000000000000000000000000000000000000000000000000000a000000000000000000000000000000000000000000000000000000000000000e000000000000000000000000000000000000000000000000000000000000000000000000000000000000000000000000000000000000000000000000000000001000000000000000000000000000000000000000000000000000000000000000100000000000000000000000000000000000000000000000000000000000000c00000000000000000000000000e3a2a1f2146d86a604adc220b4967a898d7fe0700000000000000000000000009a379ef7218bcfd8913faa8b281ebc5a2e0bc040000000000000000000000000000000000000000000000000000000000000060000000000000000000000000000000000000000000000000000000000000004000000000000000000000000000000000000000000000000000000000000001360000000000000000000000000000000000000000000000000000000000000004";
       takerAssetAmount :=
         units "10";
       takerFeeAssetData :=
         units "0x";
       takerFee :=
         units "0";
       senderAddress :=
         units "0x0000000000000000000000000000000000000000";
       feeRecipientAddress :=
         units "0x0d056bb17ad4df5593b93a1efc29cb35ba4aa38d";
       expirationTimeSeconds :=
         units "1595164917";
       salt :=
         units "1584796917698";
       signature :=
         units "0x1c91055b1ce93cdd341c423b889be703ce436e25fe62d94aabbae97528b4d247646c3cd3a20f0566540ac5668336d147d844cf1a7715d700f1a7c3e72f1c60e21502" |};
     hash :=
       units "0x06d15403630b6d73fbacbf0864eb76c2db3d6e6fc8adec8a95fc536593f17c54";
     remainingFillableTakerAssetAmount :=
       units "10" |}.

Definition sampleOrder1 : OrderWithMetadata :=
  {| base := {|
       chainId := 1;
       exchangeAddress :=
         units "0x61935cbdd02287b511119ddb11aeb42f1593b7ef";
       makerAddress :=
         units "0x0c5fa5fa51d84227bfacdc56b36329286b37d051";
       makerAssetData :=
         units "0xf47261b0000000000000000000000000c02aaa39b223fe8d0a0e5c4f27ead9083c756cc2";
       makerAssetAmount :=
         units "50911000000000000";
       makerFeeAssetData :=
         units "0x";
       makerFee :=
         units "0";
       takerAddress :=
         units "0x0000000000000000000000000000000000000000";
       takerAssetData :=
         units "0xf47261b000000000000000000000000058b6a8a3302369daec383334672404ee733ab239";
       takerAssetAmount :=
         units "10000000000000000000";
       takerFeeAssetData :=
         units "0x";
       takerFee :=
         units "0";
       senderAddress :=
         units "0x0000000000000000000000000000000000000000";
       feeRecipientAddress :=
         units "0xa258b39954cef5cb142fd567a46cddb31a670124";
       expirationTimeSeconds :=
         units "1592663792";
       salt :=
         units "1590244702461";
       signature :=
         units "0x1bf931ab06551bbbd3a7e272ca4833503d768caca2cac564b157b46c906c7b41c57fd6146b500e1ad2dac729c351142764cb76efc975c6d7c64aef6cf7930c075d02" |};
     hash :=
       units "0x181af7476932a167bb95224a0cc0f627c422c49c2f0698bf7b1bf0525518fdf1";
     remainingFillableTakerAssetAmount :=
       units "10000000000000000000" |}.

Definition sampleOrder2 : OrderWithMetadata :=
  {| base := {|
       chainId := 1;
       exchangeAddress :=
         units "0x61935cbdd02287b511119ddb11aeb42f1593b7ef";
       makerAddress :=
         units "0x9899beaad8ded0402c39148afdd03850dfe29fda";
       makerAssetData :=
         units "0xf47261b0000000000000000000000000a0b86991c6218b36c1d19d4a2e9eb0ce3606eb48";
       makerAssetAmount :=
         units "2000000";
       makerFeeAssetData :=
         units "0xf47261b0000000000000000000000000a0b86991c6218b36c1d19d4a2e9eb0ce3606eb48";
       makerFee :=
         units "30000";
       takerAddress :=
         units "0x56d9fb185343ff68484abb2964ad319728083cc9";
       takerAssetData :=
         units "0x0257179200000000000000000000000048acc9ccee8b3581325fdf5171a997b02e95f781000000000000000000000000000000000000000000000000000000000000002c";
       takerAssetAmount :=
         units "1";
       takerFeeAssetData :=
         units "0xf47261b0000000000000000000000000a0b86991c6218b36c1d19d4a2e9eb0ce3606eb48";
       takerFee :=
         units "30000";
       senderAddress :=
         units "0x0000000000000000000000000000000000000000";
       feeRecipientAddress :=
         units "0xf19c44431b01bc31a18cd69c5e334b6f255b16e8";
       expirationTimeSeconds :=
         units "1592208000000";
       salt :=
         units "1591360002494";
       signature :=
         units "0x1be71eb13970f5f428843b64b697132c498bff99d878eb496e1bfc1616d3eadc862f622cef8d8766ef5e7180505af723eda590c7d9f580b19c485488dc33ff805402" |};
     hash :=
       units "0x1c4277bd277bab56cece52d53533361fc5b90428bddfc52eac2c32f6881ba08d";
     remainingFillableTakerAssetAmount :=
       units "1" |}.

Definition sampleOrders : list OrderWithMetadata :=
  [sampleOrder0; sampleOrder1; sampleOrder2].

(** An instance of the conversion parameter for the examples: a string of
    decimal digits converts to the integer it writes, the empty string to
    0 and any other string to NaN. *)
Fixpoint digitsValue (acc : Z) (s : JsString) : option Z :=
  match s with
  | [] => Some acc
  | c :: s' =>
      if (N.leb 48 c && N.leb c 57)%bool then
        digitsValue (10 * acc + (Z.of_N c - 48)) s'
      else None
  end.

Definition exampleToNumber (s : JsString) : Number :=
  match digitsValue 0 s with
  | Some z => IntToNumber z
  | None => NaN
  end.

(** ** Vocabulary of the statements *)

(** The lexicographic order on sequences of code units. *)
Inductive code_units_lt : JsString -> JsString -> Prop :=
| lt_prefix : forall d t, code_units_lt [] (d :: t)
| lt_head : forall c d s t, (c < d)%N -> code_units_lt (c :: s) (d :: t)
| lt_tail : forall c s t, code_units_lt s t -> code_units_lt (c :: s) (c :: t).

(** The integer a string of decimal digits writes. *)
Definition decimalValue (s : JsString) : option Z := digitsValue 0 s.

Definition recognizedKind (kind : JsString) : bool :=
  existsb (String_equal kind)
    [FilterKind.Equal; FilterKind.NotEqual; FilterKind.Greater;
     FilterKind.GreaterOrEqual; FilterKind.Less; FilterKind.LessOrEqual].

Definition recognizedDirection (direction : JsString) : bool :=
  existsb (String_equal direction) [SortDirection.Asc; SortDirection.Desc].

(** A comparator is consistent when it is a three-way comparison for a
    total preorder. *)
Definition consistent {A} (c : A -> A -> Z) : Prop :=
  (forall a b, c b a = - c a b) /\
  (forall a b, -1 <= c a b <= 1) /\
  (forall a b x, c a b <= 0 -> c b x <= 0 -> c a x <= 0).

(** [a] is not placed after [b]. *)
Definition precedes {A} (c : A -> A -> Z) (a b : A) : Prop := c a b <= 0.

(** [a] and [b] compare equal. *)
Definition tie {A} (c : A -> A -> Z) (a b : A) : bool := c a b =? 0.

(** The verdict of one filter on one order: the predicate compiled for
    the filter, applied to the order. *)
Definition filterAccepts (StringToNumber : JsString -> Number)
    (filter : OrderFilter.t) (order : OrderWithMetadata) : Completion bool :=
  let* p := compileFilter StringToNumber filter in Normal (p order).

(** An order whose [makerAssetAmount] is ["10"]. *)
Definition withMakerAssetAmount (amount : JsString) (o : OrderWithMetadata)
  : OrderWithMetadata :=
  {| base := {|
       chainId := chainId (base o);
       exchangeAddress := exchangeAddress (base o);
       makerAddress := makerAddress (base o);
       makerAssetData := makerAssetData (base o);
       makerAssetAmount := amount;
       makerFeeAssetData := makerFeeAssetData (base o);
       makerFee := makerFee (base o);
       takerAddress := takerAddress (base o);
       takerAssetData := takerAssetData (base o);
       takerAssetAmount := takerAssetAmount (base o);
       takerFeeAssetData := takerFeeAssetData (base o);
       takerFee := takerFee (base o);
       senderAddress := senderAddress (base o);
       feeRecipientAddress := feeRecipientAddress (base o);
       expirationTimeSeconds := expirationTimeSeconds (base o);
       salt := salt (base o);
       signature := signature (base o) |};
     hash := hash o;
     remainingFillableTakerAssetAmount :=
       remainingFillableTakerAssetAmount o |}.

Definition orderOfAmount10 : OrderWithMetadata :=
  withMakerAssetAmount (units "10") sampleOrder0.

(** The order of two records under one sort, as the operator [<] of
    JavaScript orders the two field values (two strings by code unit, also
    when they write numbers): that order for [ASC], the reverse for
    [DESC] (and nothing for a direction that is not recognized, which the
    resolver rejects). *)
Definition specCompare (StringToNumber : JsString -> Number)
    (sort : OrderSort.t) (a b : OrderWithMetadata) : Z :=
  let x := prop a (OrderSort.field sort) in
  let y := prop b (OrderSort.field sort) in
  let ascending :=
    if js_lt StringToNumber x y then -1
    else if js_lt StringToNumber y x then 1 else 0 in
  if String_equal (OrderSort.direction sort) SortDirection.Asc then ascending
  else if String_equal (OrderSort.direction sort) SortDirection.Desc
       then - ascending
  else 0.

(** The order under a list of sorts, by priority: the first sort under
    which the two records do not tie decides. *)
Fixpoint lexCompare (StringToNumber : JsString -> Number)
    (sorts : list OrderSort.t) (a b : OrderWithMetadata) : Z :=
  match sorts with
  | [] => 0
  | s :: rest =>
      match specCompare StringToNumber s a b with
      | 0 => lexCompare StringToNumber rest a b
      | r => r
      end
  end.

(** A string made of decimal digits only. *)
Definition allDigits (s : JsString) : bool :=
  forallb (fun c => (N.leb 48 c && N.leb c 57)%bool) s.

(** The sort the schema gives to a query that names none: by hash,
    ascending. *)
Definition defaultSort : list OrderSort.t :=
  [{| OrderSort.field := OrderField.hash;
      OrderSort.direction := SortDirection.Asc |}].

(** * Properties *)

(** ** Strings and numbers *)

Lemma String_equal_eq (s t : JsString) : String_equal s t = true <-> s = t.
Proof.
  revert t; induction s as [|c s IH]; intros [|d t]; simpl;
    try (split; (reflexivity || discriminate)).
  rewrite andb_true_iff, N.eqb_eq, IH.
  split; [intros [-> ->]; reflexivity | intros E; inversion E; auto].
Qed.

Lemma String_equal_refl (s : JsString) : String_equal s s = true.
Proof. apply String_equal_eq; reflexivity. Qed.

Lemma String_equal_neq (s t : JsString) : String_equal s t = false <-> s <> t.
Proof.
  rewrite <- String_equal_eq. destruct (String_equal s t); split;
    congruence.
Qed.

Lemma String_lessThan_spec (s t : JsString) :
  String_lessThan s t = true <-> code_units_lt s t.
Proof.
  revert t; induction s as [|c s IH]; intros [|d t]; simpl.
  - split; [discriminate | inversion 1].
  - split; [constructor | reflexivity].
  - split; [discriminate | inversion 1].
  - destruct (N.ltb_spec c d) as [Hcd|Hcd].
    + split; [intros _; now apply lt_head | reflexivity].
    + destruct (N.ltb_spec d c) as [Hdc|Hdc].
      * split; [discriminate |].
        inversion 1; subst; lia.
      * assert (c = d) by lia; subst d. rewrite IH.
        split; [apply lt_tail |]. inversion 1; subst; [lia | assumption].
Qed.

Lemma String_lessThan_asym (s t : JsString) :
  String_lessThan s t = true -> String_lessThan t s = false.
Proof.
  revert t; induction s as [|c s IH]; intros [|d t]; simpl; auto;
    try discriminate.
  destruct (N.ltb_spec c d), (N.ltb_spec d c); auto; try discriminate; lia.
Qed.

Lemma String_lessThan_cotrans (s t u : JsString) :
  String_lessThan s t = true ->
  String_lessThan s u = true \/ String_lessThan u t = true.
Proof.
  revert t u; induction s as [|c s IH]; intros [|d t] [|e u]; simpl; auto;
    try discriminate.
  - destruct (N.ltb_spec c d), (N.ltb_spec d c), (N.ltb_spec c e),
      (N.ltb_spec e c), (N.ltb_spec e d), (N.ltb_spec d e);
      auto; try discriminate; try lia.
Qed.

Lemma String_lessThan_total (s t : JsString) :
  String_lessThan s t = false -> String_lessThan t s = false -> s = t.
Proof.
  revert t; induction s as [|c s IH]; intros [|d t]; simpl; auto;
    try discriminate.
  destruct (N.ltb_spec c d), (N.ltb_spec d c); try discriminate.
  intros; f_equal; [lia | auto].
Qed.

Lemma Qltb_inject_Z (a b : Z) : Qltb (inject_Z a) (inject_Z b) = (a <? b).
Proof.
  unfold Qltb, Qle_bool; simpl. rewrite !Z.mul_1_r.
  rewrite Z.ltb_antisym. reflexivity.
Qed.

Lemma Qltb_lt (a b : Q) : Qltb a b = true <-> (a < b)%Q.
Proof.
  unfold Qltb. rewrite negb_true_iff.
  split.
  - intros H. apply Qnot_le_lt. intros Hle.
    apply Qle_bool_iff in Hle. congruence.
  - intros H. destruct (Qle_bool b a) eqn:E; [|reflexivity].
    apply Qle_bool_iff in E. exfalso. apply (Qlt_not_le _ _ H E).
Qed.

(** ** Completions and [map] *)

Lemma Array_map_Normal {A B} (f : A -> Completion B) (l : list A) :
  (forall x, In x l -> exists y, f x = Normal y) ->
  exists ys, Array_map f l = Normal ys.
Proof.
  induction l as [|x l IH]; intros H; simpl.
  - now exists [].
  - destruct (H x (or_introl eq_refl)) as [y ->].
    destruct IH as [ys ->]; [intros; apply H; now right|].
    simpl. now exists (y :: ys).
Qed.

Lemma Array_map_Forall2 {A B} (f : A -> Completion B) (l : list A) ys :
  Array_map f l = Normal ys -> Forall2 (fun x y => f x = Normal y) l ys.
Proof.
  revert ys; induction l as [|x l IH]; intros ys; simpl.
  - intros E; inversion E; constructor.
  - destruct (f x) as [y|m] eqn:Ex; simpl; [|discriminate].
    destruct (Array_map f l) as [ys'|m]; simpl; [|discriminate].
    intros E; inversion E; subst. constructor; auto.
Qed.

Lemma Array_map_Throw {A B} (f : A -> Completion B) (l : list A) :
  (exists x, In x l /\ exists m, f x = Throw m) ->
  exists x m, In x l /\ f x = Throw m /\ Array_map f l = Throw m.
Proof.
  induction l as [|x l IH]; intros (x0 & Hin & m0 & Hx0); simpl in *.
  - contradiction.
  - destruct (f x) as [y|m] eqn:Ex.
    + destruct Hin as [->|Hin]; [congruence|].
      destruct IH as (x1 & m1 & Hin1 & Hf1 & Hmap); [eauto|].
      exists x1, m1. rewrite Hmap. simpl. auto.
    + exists x, m. simpl. auto.
Qed.

(** ** Slices *)

Lemma relative_index_zero (len : nat) : relative_index len (Some 0) = 0%nat.
Proof. reflexivity. Qed.

Lemma Array_slice_all {A} (l : list A) : Array_slice (Some 0) None l = l.
Proof.
  unfold Array_slice; simpl. rewrite Nat.sub_0_r. apply firstn_all.
Qed.

Lemma take_spec {A} (n : Z) (xs : list A) :
  R.take n xs = if n <? 0 then xs else firstn (Z.to_nat n) xs.
Proof.
  unfold R.take, R.slice. destruct (n <? 0) eqn:E.
  - apply Array_slice_all.
  - unfold Array_slice, relative_index. rewrite E. simpl.
    rewrite Nat.sub_0_r. destruct (Nat.min_spec (Z.to_nat n) (length xs))
      as [[Hlt ->]|[Hge ->]]; [reflexivity|].
    rewrite firstn_all. symmetry. now apply firstn_all2.
Qed.

Lemma R_filter_filter {A} (pred : A -> bool) (l : list A) :
  R.filter pred l = List.filter pred l.
Proof. induction l as [|x l IH]; simpl; [|rewrite IH]; reflexivity. Qed.

(** ** Consistent comparators *)

Lemma consistent_tie_trans {A} (c : A -> A -> Z) (a b x : A) :
  consistent c -> c a b = 0 -> c b x = 0 -> c a x = 0.
Proof.
  intros (Hanti & _ & Htrans) Hab Hbx.
  pose proof (Htrans a b x). pose proof (Htrans x b a).
  pose proof (Hanti a b). pose proof (Hanti b x). pose proof (Hanti a x).
  lia.
Qed.

Lemma consistent_tie_lt {A} (c : A -> A -> Z) (a b x : A) :
  consistent c -> c a b = 0 -> c b x < 0 -> c a x < 0.
Proof.
  intros (Hanti & _ & Htrans) Hab Hbx.
  pose proof (Htrans a b x). pose proof (Htrans x a b).
  pose proof (Hanti a x). pose proof (Hanti b x).
  lia.
Qed.

Lemma consistent_lt_tie {A} (c : A -> A -> Z) (a b x : A) :
  consistent c -> c a b < 0 -> c b x = 0 -> c a x < 0.
Proof.
  intros (Hanti & _ & Htrans) Hab Hbx.
  pose proof (Htrans a b x). pose proof (Htrans b x a).
  pose proof (Hanti a x). pose proof (Hanti a b).
  lia.
Qed.

Lemma consistent_lt_trans {A} (c : A -> A -> Z) (a b x : A) :
  consistent c -> c a b < 0 -> c b x < 0 -> c a x < 0.
Proof.
  intros (Hanti & _ & Htrans) Hab Hbx.
  pose proof (Htrans a b x). pose proof (Htrans x a b).
  pose proof (Hanti a x). pose proof (Hanti b x).
  lia.
Qed.

Lemma consistent_zero {A} : consistent (fun _ _ : A => 0).
Proof. repeat split; intros; lia. Qed.

Lemma consistent_flip {A} (c : A -> A -> Z) :
  consistent c -> consistent (fun a b => c b a).
Proof.
  intros (Hanti & Hrange & Htrans). repeat split; intros.
  - apply Hanti.
  - apply Hrange.
  - apply Hrange.
  - eapply Htrans; eassumption.
Qed.

Lemma consistent_then {A} (c1 c2 : A -> A -> Z) :
  consistent c1 -> consistent c2 ->
  consistent (fun a b => let result := c1 a b in
                         if result =? 0 then c2 a b else result).
Proof.
  intros H1 H2. split; [|split]; cbv zeta.
  - intros a b. destruct H1 as (Hanti1 & _), H2 as (Hanti2 & _).
    rewrite (Hanti1 a b), (Hanti2 a b).
    destruct (Z.eqb_spec (c1 a b) 0), (Z.eqb_spec (- c1 a b) 0); lia.
  - intros a b. destruct H1 as (_ & Hr1 & _), H2 as (_ & Hr2 & _).
    destruct (Z.eqb_spec (c1 a b) 0); [apply Hr2 | apply Hr1].
  - intros a b x.
    destruct (Z.eqb_spec (c1 a b) 0) as [Eab|Nab],
      (Z.eqb_spec (c1 b x) 0) as [Ebx|Nbx].
    + rewrite (consistent_tie_trans c1 a b x H1 Eab Ebx). simpl.
      destruct H2 as (_ & _ & Htrans2). apply Htrans2.
    + intros _ Hbx.
      assert (Hax : c1 a x < 0)
        by (apply (consistent_tie_lt c1 a b x H1 Eab); lia).
      destruct (Z.eqb_spec (c1 a x) 0); lia.
    + intros Hab _.
      assert (Hax : c1 a x < 0)
        by (apply (consistent_lt_tie c1 a b x H1); [lia | exact Ebx]).
      destruct (Z.eqb_spec (c1 a x) 0); lia.
    + intros Hab Hbx.
      assert (Hax : c1 a x < 0)
        by (apply (consistent_lt_trans c1 a b x H1); lia).
      destruct (Z.eqb_spec (c1 a x) 0); lia.
Qed.

Lemma consistent_sortWith_comparator {A} (fns : list (A -> A -> Z)) :
  Forall consistent fns -> consistent (R.sortWith_comparator fns).
Proof.
  induction 1 as [|f fns Hf _ IH].
  - apply consistent_zero.
  - exact (consistent_then f (R.sortWith_comparator fns) Hf IH).
Qed.

(** A three-way comparison built on a strict order that is asymmetric and
    cotransitive. *)
Lemma consistent_three_way {A K} (lt : K -> K -> bool) (key : A -> K) :
  (forall s t, lt s t = true -> lt t s = false) ->
  (forall s t u, lt s t = true -> lt s u = true \/ lt u t = true) ->
  consistent (fun a b => if lt (key a) (key b) then -1
                         else if lt (key b) (key a) then 1 else 0).
Proof.
  intros Hasym Hco. repeat split.
  - intros a b. pose proof (Hasym (key a) (key b)).
    pose proof (Hasym (key b) (key a)).
    destruct (lt (key a) (key b)), (lt (key b) (key a)); intuition (try lia);
      discriminate.
  - destruct (lt (key a) (key b)), (lt (key b) (key a)); lia.
  - destruct (lt (key a) (key b)), (lt (key b) (key a)); lia.
  - intros a b x Hab Hbx.
    assert (Eba : lt (key b) (key a) = false).
    { pose proof (Hasym (key a) (key b)).
      destruct (lt (key a) (key b)), (lt (key b) (key a)); auto; lia. }
    assert (Exb : lt (key x) (key b) = false).
    { pose proof (Hasym (key b) (key x)).
      destruct (lt (key b) (key x)), (lt (key x) (key b)); auto; lia. }
    assert (Exa : lt (key x) (key a) = false).
    { destruct (lt (key x) (key a)) eqn:E; [|reflexivity].
      destruct (Hco _ _ (key b) E); congruence. }
    rewrite Exa. destruct (lt (key a) (key x)); lia.
Qed.

(** ** The stable sort *)

Lemma sort_insert_perm {A} (c : A -> A -> Z) (x : A) (l : list A) :
  Permutation (sort_insert c x l) (x :: l).
Proof.
  induction l as [|y l IH]; simpl; [reflexivity|].
  destruct (c x y <=? 0); [reflexivity|].
  rewrite IH. apply perm_swap.
Qed.

Lemma Array_sort_perm {A} (c : A -> A -> Z) (l : list A) :
  Permutation (Array_sort c l) l.
Proof.
  induction l as [|x l IH]; simpl; [reflexivity|].
  rewrite sort_insert_perm. now apply perm_skip.
Qed.

Lemma sort_insert_sorted {A} (c : A -> A -> Z) (x : A) (l : list A) :
  consistent c -> Sorted (precedes c) l ->
  Sorted (precedes c) (sort_insert c x l).
Proof.
  intros (Hanti & _ & _). induction 1 as [|y l Hl IH Hhd]; simpl.
  - repeat constructor.
  - destruct (Z.leb_spec (c x y) 0) as [Hle|Hgt].
    + constructor; [now constructor | now constructor].
    + constructor; [assumption|].
      assert (Hyx : precedes c y x).
      { unfold precedes. rewrite (Hanti x y). lia. }
      destruct l as [|z l]; simpl.
      * now constructor.
      * destruct (c x z <=? 0); constructor; [assumption|].
        now inversion Hhd.
Qed.

Lemma precedes_transitive {A} (c : A -> A -> Z) :
  consistent c -> Relations_1.Transitive (precedes c).
Proof. intros (_ & _ & Htrans) a b x. apply Htrans. Qed.

Lemma Array_sort_sorted {A} (c : A -> A -> Z) (l : list A) :
  consistent c -> StronglySorted (precedes c) (Array_sort c l).
Proof.
  intros Hc. apply Sorted_StronglySorted.
  - now apply precedes_transitive.
  - induction l as [|x l IH]; simpl; [constructor|].
    now apply sort_insert_sorted.
Qed.

Lemma sort_insert_stable {A} (c : A -> A -> Z) (x z : A) (l : list A) :
  consistent c ->
  List.filter (tie c z) (sort_insert c x l) = List.filter (tie c z) (x :: l).
Proof.
  intros Hc. induction l as [|y l IH]; simpl; [reflexivity|].
  destruct (Z.leb_spec (c x y) 0) as [Hle|Hgt]; [reflexivity|].
  simpl. rewrite IH. simpl. unfold tie.
  destruct (Z.eqb_spec (c z x) 0) as [Ex|Ex],
    (Z.eqb_spec (c z y) 0) as [Ey|Ey]; try reflexivity.
  exfalso.
  assert (c x z = 0) by (destruct Hc as (Hanti & _); rewrite Hanti; lia).
  pose proof (consistent_tie_trans c x z y Hc). lia.
Qed.

Lemma Array_sort_stable {A} (c : A -> A -> Z) (z : A) (l : list A) :
  consistent c ->
  List.filter (tie c z) (Array_sort c l) = List.filter (tie c z) l.
Proof.
  intros Hc. induction l as [|x l IH]; simpl; [reflexivity|].
  rewrite sort_insert_stable by assumption. simpl. now rewrite IH.
Qed.

Lemma Array_sort_sorted_id {A} (c : A -> A -> Z) (l : list A) :
  Sorted (precedes c) l -> Array_sort c l = l.
Proof.
  induction 1 as [|x l Hl IH Hhd]; simpl; [reflexivity|].
  rewrite IH. destruct Hhd as [|y l Hxy]; simpl; [reflexivity|].
  unfold precedes in Hxy. destruct (Z.leb_spec (c x y) 0); [reflexivity|lia].
Qed.

Section Properties.

Variable StringToNumber : JsString -> Number.
Variable mockOrders : list OrderWithMetadata.

Local Abbreviation compileFilter := (compileFilter StringToNumber).
Local Abbreviation compileSort := (compileSort StringToNumber).
Local Abbreviation filterAccepts := (filterAccepts StringToNumber).
Local Abbreviation orderResolver := (orderResolver mockOrders).
Local Abbreviation ordersResolver := (ordersResolver StringToNumber mockOrders).

(** ** Compiling filters and sorts *)

Lemma compileFilter_recognized (filter : OrderFilter.t) :
  recognizedKind (OrderFilter.kind filter) = true ->
  exists p, compileFilter filter = Normal p.
Proof.
  unfold recognizedKind, compileFilter; simpl.
  destruct (String_equal _ FilterKind.Equal); [eauto|].
  destruct (String_equal _ FilterKind.NotEqual); [eauto|].
  destruct (String_equal _ FilterKind.Greater); [eauto|].
  destruct (String_equal _ FilterKind.GreaterOrEqual); [eauto|].
  destruct (String_equal _ FilterKind.Less); [eauto|].
  destruct (String_equal _ FilterKind.LessOrEqual); [eauto|].
  discriminate.
Qed.

Lemma compileFilter_unrecognized (filter : OrderFilter.t) :
  recognizedKind (OrderFilter.kind filter) = false ->
  compileFilter filter =
    Throw (units "unexpected filter kind: " ++ OrderFilter.kind filter).
Proof.
  unfold recognizedKind, compileFilter; simpl.
  destruct (String_equal _ FilterKind.Equal); [discriminate|].
  destruct (String_equal _ FilterKind.NotEqual); [discriminate|].
  destruct (String_equal _ FilterKind.Greater); [discriminate|].
  destruct (String_equal _ FilterKind.GreaterOrEqual); [discriminate|].
  destruct (String_equal _ FilterKind.Less); [discriminate|].
  destruct (String_equal _ FilterKind.LessOrEqual); [discriminate|].
  reflexivity.
Qed.

Lemma compileSort_recognized (sort : OrderSort.t) :
  recognizedDirection (OrderSort.direction sort) = true ->
  exists c, compileSort sort = Normal c.
Proof.
  unfold recognizedDirection, compileSort; simpl.
  destruct (String_equal _ SortDirection.Asc); [eauto|].
  destruct (String_equal _ SortDirection.Desc); [eauto|].
  discriminate.
Qed.

Lemma compileSort_unrecognized (sort : OrderSort.t) :
  recognizedDirection (OrderSort.direction sort) = false ->
  compileSort sort =
    Throw (units "unexpected sort direction: " ++ OrderSort.direction sort).
Proof.
  unfold recognizedDirection, compileSort; simpl.
  destruct (String_equal _ SortDirection.Asc); [discriminate|].
  destruct (String_equal _ SortDirection.Desc); [discriminate|].
  reflexivity.
Qed.

Lemma compileFilter_Normal_recognized (filter : OrderFilter.t) p :
  compileFilter filter = Normal p ->
  recognizedKind (OrderFilter.kind filter) = true.
Proof.
  destruct (recognizedKind (OrderFilter.kind filter)) eqn:E; [reflexivity|].
  rewrite (compileFilter_unrecognized _ E). discriminate.
Qed.

Lemma compileSort_Normal_recognized (sort : OrderSort.t) c :
  compileSort sort = Normal c ->
  recognizedDirection (OrderSort.direction sort) = true.
Proof.
  destruct (recognizedDirection (OrderSort.direction sort)) eqn:E;
    [reflexivity|].
  rewrite (compileSort_unrecognized _ E). discriminate.
Qed.

(** ** The predicate of one filter *)

Lemma filterAccepts_Equal field value order :
  filterAccepts
    {| OrderFilter.field := field; OrderFilter.kind := FilterKind.Equal;
       OrderFilter.value := value |} order
  = Normal (IsStrictlyEqual (prop order field) value).
Proof. reflexivity. Qed.

Lemma filterAccepts_NotEqual field value order :
  filterAccepts
    {| OrderFilter.field := field; OrderFilter.kind := FilterKind.NotEqual;
       OrderFilter.value := value |} order
  = Normal (negb (IsStrictlyEqual (prop order field) value)).
Proof. reflexivity. Qed.

Lemma filterAccepts_Greater field value order :
  filterAccepts
    {| OrderFilter.field := field; OrderFilter.kind := FilterKind.Greater;
       OrderFilter.value := value |} order
  = Normal (js_gt StringToNumber (prop order field) value).
Proof. reflexivity. Qed.

Lemma filterAccepts_GreaterOrEqual field value order :
  filterAccepts
    {| OrderFilter.field := field;
       OrderFilter.kind := FilterKind.GreaterOrEqual;
       OrderFilter.value := value |} order
  = Normal (js_ge StringToNumber (prop order field) value).
Proof. reflexivity. Qed.

Lemma filterAccepts_Less field value order :
  filterAccepts
    {| OrderFilter.field := field; OrderFilter.kind := FilterKind.Less;
       OrderFilter.value := value |} order
  = Normal (js_lt StringToNumber (prop order field) value).
Proof. reflexivity. Qed.

Lemma filterAccepts_LessOrEqual field value order :
  filterAccepts
    {| OrderFilter.field := field; OrderFilter.kind := FilterKind.LessOrEqual;
       OrderFilter.value := value |} order
  = Normal (js_le StringToNumber (prop order field) value).
Proof. reflexivity. Qed.

Lemma Normal_inj {A} (a b : A) : Normal a = Normal b <-> a = b.
Proof. split; [intros E; now inversion E | now intros ->]. Qed.

Lemma not_true_false (b : bool) : negb b = true <-> b <> true.
Proof. destruct b; simpl; split; congruence. Qed.

Lemma Qle_bool_negb_Qltb (a b : Q) : negb (Qltb a b) = Qle_bool b a.
Proof. unfold Qltb. apply negb_involutive. Qed.

(** X14: what the six kinds of filter decide.  On a field that holds a
    string, with a string as value, they are the equality of the two
    strings and their order by code unit; on [chainId], with a finite
    number as value, they are the equality and the order of the two
    numbers. *)
Theorem filter_compares_with_js_operators
    (order : OrderWithMetadata) (field : OrderField.t) (s v : JsString) :
  prop order field = JsStr s ->
  let spec kind :=
    {| OrderFilter.field := field; OrderFilter.kind := kind;
       OrderFilter.value := JsStr v |} in
  let chain kind q :=
    {| OrderFilter.field := OrderField.chainId; OrderFilter.kind := kind;
       OrderFilter.value := JsNum (Finite q) |} in
  (filterAccepts (spec FilterKind.Equal) order = Normal true <-> s = v) /\
  (filterAccepts (spec FilterKind.NotEqual) order = Normal true <-> s <> v) /\
  (filterAccepts (spec FilterKind.Greater) order = Normal true
     <-> code_units_lt v s) /\
  (filterAccepts (spec FilterKind.GreaterOrEqual) order = Normal true
     <-> ~ code_units_lt s v) /\
  (filterAccepts (spec FilterKind.Less) order = Normal true
     <-> code_units_lt s v) /\
  (filterAccepts (spec FilterKind.LessOrEqual) order = Normal true
     <-> ~ code_units_lt v s) /\
  (forall q,
     (filterAccepts (chain FilterKind.Equal q) order = Normal true
        <-> (inject_Z (chainId (base order)) == q)%Q) /\
     (filterAccepts (chain FilterKind.NotEqual q) order = Normal true
        <-> ~ (inject_Z (chainId (base order)) == q)%Q) /\
     (filterAccepts (chain FilterKind.Greater q) order = Normal true
        <-> (q < inject_Z (chainId (base order)))%Q) /\
     (filterAccepts (chain FilterKind.GreaterOrEqual q) order = Normal true
        <-> (q <= inject_Z (chainId (base order)))%Q) /\
     (filterAccepts (chain FilterKind.Less q) order = Normal true
        <-> (inject_Z (chainId (base order)) < q)%Q) /\
     (filterAccepts (chain FilterKind.LessOrEqual q) order = Normal true
        <-> (inject_Z (chainId (base order)) <= q)%Q)).
Proof.
  intros Hs spec chain. subst spec chain. cbv beta.
  rewrite filterAccepts_Equal, filterAccepts_NotEqual,
    filterAccepts_Greater, filterAccepts_GreaterOrEqual,
    filterAccepts_Less, filterAccepts_LessOrEqual.
  rewrite Hs. unfold js_gt, js_ge, js_lt, js_le; simpl.
  rewrite !Normal_inj, !not_true_false, !String_lessThan_spec,
    String_equal_eq.
  repeat (split; [tauto|]).
  intros q.
  rewrite filterAccepts_Equal, filterAccepts_NotEqual,
    filterAccepts_Greater, filterAccepts_GreaterOrEqual,
    filterAccepts_Less, filterAccepts_LessOrEqual.
  unfold js_gt, js_ge, js_lt, js_le; simpl.
  rewrite !Qle_bool_negb_Qltb, !Normal_inj, !not_true_false, !Qltb_lt,
    !Qle_bool_iff, Qeq_bool_iff.
  tauto.
Qed.

(** ** The conjunction of the filters *)

Lemma allPass_Forall {A} (preds : list (A -> bool)) (x : A) :
  R.allPass preds x = true <-> Forall (fun p => p x = true) preds.
Proof.
  induction preds as [|p ps IH]; simpl.
  - split; auto.
  - destruct (p x) eqn:E.
    + rewrite IH. split; [auto | now inversion 1].
    + split; [discriminate | inversion 1; congruence].
Qed.

(** C4: the predicate [R.allPass] builds from the compiled filters accepts
    an order exactly when every filter of the list accepts it, and for the
    empty list of filters it accepts every order. *)
Theorem combined_predicate_is_conjunction
    (filters : list OrderFilter.t) preds :
  Array_map compileFilter filters = Normal preds ->
  forall order,
    (R.allPass preds order = true <->
     (forall f, In f filters -> filterAccepts f order = Normal true)) /\
    (filters = [] -> R.allPass preds order = true).
Proof.
  intros Hmap order. apply Array_map_Forall2 in Hmap.
  split.
  - rewrite allPass_Forall.
    induction Hmap as [|f p fs ps Hf _ IH]; simpl.
    + split; [intros _ f [] | constructor].
    + split.
      * inversion 1; subst. intros g [<-|Hg].
        -- unfold filterAccepts. rewrite Hf. simpl. now f_equal.
        -- now apply IH.
      * intros H. constructor.
        -- specialize (H f (or_introl eq_refl)).
           unfold filterAccepts in H. rewrite Hf in H. simpl in H.
           now inversion H.
        -- apply IH. intros g Hg. apply H. now right.
  - intros ->. inversion Hmap. reflexivity.
Qed.

(** ** The comparators of the sorts *)

Lemma consistent_ext {A} (c c' : A -> A -> Z) :
  (forall a b, c a b = c' a b) -> consistent c -> consistent c'.
Proof.
  intros E (Hanti & Hrange & Htrans). repeat split; intros;
    rewrite <- ?E in *; auto; try apply Hrange.
  eapply Htrans; eassumption.
Qed.

Lemma descend_ascend {A} (fn : A -> JsValue) (a b : A) :
  descend StringToNumber fn a b = ascend StringToNumber fn b a.
Proof. reflexivity. Qed.

Lemma ascend_consistent {A} (fn : A -> JsValue) :
  (exists key, forall a, fn a = JsStr (key a)) \/
  (exists key, forall a, fn a = JsNum (IntToNumber (key a))) ->
  consistent (ascend StringToNumber fn).
Proof.
  intros [[key Hkey]|[key Hkey]].
  - apply (consistent_ext
             (fun a b => if String_lessThan (key a) (key b) then -1
                         else if String_lessThan (key b) (key a) then 1
                         else 0)).
    + intros a b. unfold ascend, js_lt, js_gt. rewrite !Hkey. reflexivity.
    + apply consistent_three_way.
      * apply String_lessThan_asym.
      * apply String_lessThan_cotrans.
  - apply (consistent_ext
             (fun a b => if key a <? key b then -1
                         else if key b <? key a then 1 else 0)).
    + intros a b. unfold ascend, js_lt, js_gt. rewrite !Hkey. simpl.
      now rewrite !Qltb_inject_Z.
    + apply consistent_three_way; intros; lia.
Qed.

Lemma prop_same_type (field : OrderField.t) :
  (exists key, forall order, prop order field = JsStr (key order)) \/
  (exists key, forall order, prop order field = JsNum (IntToNumber (key order))).
Proof.
  destruct field; [right|left..]; eexists; intros; reflexivity.
Qed.

Lemma compileSort_spec (sort : OrderSort.t) c :
  compileSort sort = Normal c ->
  forall a b, c a b = specCompare StringToNumber sort a b.
Proof.
  unfold compileSort, specCompare.
  destruct (String_equal _ SortDirection.Asc).
  - intros E; inversion E; reflexivity.
  - destruct (String_equal _ SortDirection.Desc); [|discriminate].
    intros E; inversion E; subst. intros a b.
    unfold descend, js_gt, js_lt.
    destruct (prop_same_type (OrderSort.field sort)) as [[key Hk]|[key Hk]];
      rewrite !Hk; simpl.
    + pose proof (String_lessThan_asym (key a) (key b)).
      destruct (String_lessThan (key a) (key b)),
        (String_lessThan (key b) (key a)); intuition congruence.
    + rewrite !Qltb_inject_Z.
      destruct (Z.ltb_spec (key a) (key b)), (Z.ltb_spec (key b) (key a));
        try reflexivity; lia.
Qed.

Lemma compileSort_consistent (sort : OrderSort.t) c :
  compileSort sort = Normal c -> consistent c.
Proof.
  unfold compileSort.
  destruct (String_equal _ SortDirection.Asc).
  - intros E; inversion E. apply ascend_consistent, prop_same_type.
  - destruct (String_equal _ SortDirection.Desc); [|discriminate].
    intros E; inversion E.
    apply (consistent_ext
             (fun a b => ascend StringToNumber
                           (fun order => prop order (OrderSort.field sort))
                           b a)).
    + intros; now rewrite descend_ascend.
    + apply consistent_flip, ascend_consistent, prop_same_type.
Qed.

Lemma compiled_sorters_consistent sorts sorters :
  Array_map compileSort sorts = Normal sorters -> Forall consistent sorters.
Proof.
  intros H. apply Array_map_Forall2 in H.
  induction H; constructor; eauto using compileSort_consistent.
Qed.

Lemma compiled_sorters_lexCompare sorts sorters :
  Array_map compileSort sorts = Normal sorters ->
  forall a b,
    R.sortWith_comparator sorters a b = lexCompare StringToNumber sorts a b.
Proof.
  intros H a b. apply Array_map_Forall2 in H.
  induction H as [|s c ss cs Hs _ IH]; simpl; [reflexivity|].
  rewrite (compileSort_spec _ _ Hs), IH.
  destruct (specCompare StringToNumber s a b); reflexivity.
Qed.

Lemma specCompare_consistent (sort : OrderSort.t) :
  consistent (specCompare StringToNumber sort).
Proof.
  destruct (compileSort sort) as [c|m] eqn:E.
  - apply (consistent_ext c); [now apply compileSort_spec|].
    eapply compileSort_consistent; eassumption.
  - apply (consistent_ext (fun _ _ => 0)); [|apply consistent_zero].
    intros a b. unfold compileSort in E. unfold specCompare.
    destruct (String_equal _ SortDirection.Asc); [discriminate|].
    destruct (String_equal _ SortDirection.Desc); [discriminate|].
    reflexivity.
Qed.

Lemma lexCompare_consistent (sorts : list OrderSort.t) :
  consistent (lexCompare StringToNumber sorts).
Proof.
  induction sorts as [|s rest IH]; simpl.
  - apply consistent_zero.
  - apply (consistent_ext
             (fun a b => let result := specCompare StringToNumber s a b in
                         if result =? 0
                         then lexCompare StringToNumber rest a b
                         else result)).
    + intros a b. cbv zeta.
      destruct (specCompare StringToNumber s a b); reflexivity.
    + apply consistent_then; [apply specCompare_consistent | exact IH].
Qed.

(** ** The pipeline of [ordersResolver] *)

Lemma ordersResolver_Normal args out :
  ordersResolver args = Normal out <->
  exists preds sorters,
    Array_map compileFilter (OrdersArgs.filters args) = Normal preds /\
    Array_map compileSort (OrdersArgs.sort args) = Normal sorters /\
    out = R.take (OrdersArgs.limit args)
            (R.sortWith sorters (R.filter (R.allPass preds) mockOrders)).
Proof.
  unfold ordersResolver.
  destruct (Array_map compileFilter _) as [preds|m]; simpl.
  - destruct (Array_map compileSort _) as [sorters|m]; simpl.
    + split.
      * intros E; inversion E. eauto.
      * intros (p & c & Ep & Ec & ->). inversion Ep; inversion Ec.
        reflexivity.
    + split; [discriminate | intros (? & ? & _ & E & _); discriminate].
  - split; [discriminate | intros (? & ? & E & _); discriminate].
Qed.

Lemma sortWith_spec {A} (fns : list (A -> A -> Z)) (xs : list A) :
  R.sortWith fns xs = Array_sort (R.sortWith_comparator fns) xs.
Proof. unfold R.sortWith, R.slice. now rewrite Array_slice_all. Qed.

Lemma Array_sort_ext {A} (c c' : A -> A -> Z) (l : list A) :
  (forall a b, c a b = c' a b) -> Array_sort c l = Array_sort c' l.
Proof.
  intros E. induction l as [|x l IH]; simpl; [reflexivity|].
  rewrite IH. generalize (Array_sort c' l) as m.
  induction m as [|y m IHm]; simpl; [reflexivity|].
  now rewrite E, IHm.
Qed.

Lemma ordersResolver_lexCompare args out :
  ordersResolver args = Normal out ->
  exists preds,
    Array_map compileFilter (OrdersArgs.filters args) = Normal preds /\
    out = R.take (OrdersArgs.limit args)
            (Array_sort (lexCompare StringToNumber (OrdersArgs.sort args))
               (List.filter (R.allPass preds) mockOrders)).
Proof.
  intros H. apply ordersResolver_Normal in H.
  destruct H as (preds & sorters & Hp & Hs & ->).
  exists preds. split; [assumption|].
  rewrite sortWith_spec, R_filter_filter.
  f_equal. apply Array_sort_ext.
  now apply compiled_sorters_lexCompare.
Qed.

Lemma StronglySorted_firstn {A} (P : A -> A -> Prop) (n : nat) (l : list A) :
  StronglySorted P l -> StronglySorted P (firstn n l).
Proof.
  intros H. revert n. induction H as [|x l Hl IH Hx]; intros [|n]; simpl;
    try constructor; auto.
  rewrite List.Forall_forall in *. intros y Hy. apply Hx.
  rewrite <- (firstn_skipn n l). apply in_or_app. now left.
Qed.

Lemma StronglySorted_take {A} (P : A -> A -> Prop) (n : Z) (l : list A) :
  StronglySorted P l -> StronglySorted P (R.take n l).
Proof.
  intros H. rewrite take_spec. destruct (n <? 0); [assumption|].
  now apply StronglySorted_firstn.
Qed.

Lemma js_lt_prop_asym (field : OrderField.t) (a b : OrderWithMetadata) :
  js_lt StringToNumber (prop a field) (prop b field) = true ->
  js_lt StringToNumber (prop b field) (prop a field) = false.
Proof.
  unfold js_lt.
  destruct (prop_same_type field) as [[key Hk]|[key Hk]]; rewrite !Hk; simpl.
  - apply String_lessThan_asym.
  - rewrite !Qltb_inject_Z. lia.
Qed.

(** X16: the comparator compiled from the sorts decides by the first sort
    under which the two records do not tie, each sort deciding as the
    operator [<] orders the two field values, [DESC] in reverse; it is a
    total preorder, and the output of [ordersResolver] is sorted by it. *)
Theorem sort_follows_priority (args : OrdersArgs.t) out :
  ordersResolver args = Normal out ->
  let compare := lexCompare StringToNumber (OrdersArgs.sort args) in
  (forall sorters,
     Array_map compileSort (OrdersArgs.sort args) = Normal sorters ->
     forall a b, R.sortWith_comparator sorters a b = compare a b) /\
  (forall s rest a b,
     OrdersArgs.sort args = s :: rest ->
     (specCompare StringToNumber s a b <> 0 ->
      compare a b = specCompare StringToNumber s a b) /\
     (specCompare StringToNumber s a b = 0 ->
      compare a b = lexCompare StringToNumber rest a b)) /\
  (forall field a b,
     let asc := specCompare StringToNumber
                  {| OrderSort.field := field;
                     OrderSort.direction := SortDirection.Asc |} a b in
     let desc := specCompare StringToNumber
                   {| OrderSort.field := field;
                      OrderSort.direction := SortDirection.Desc |} a b in
     (asc < 0 <->
      js_lt StringToNumber (prop a field) (prop b field) = true) /\
     (asc > 0 <->
      js_lt StringToNumber (prop b field) (prop a field) = true) /\
     desc = - asc) /\
  consistent compare /\
  StronglySorted (precedes compare) out.
Proof.
  intros H compare. subst compare.
  split; [|split; [|split; [|split]]].
  - intros sorters Hs. now apply compiled_sorters_lexCompare.
  - intros s rest a b ->. simpl.
    destruct (specCompare StringToNumber s a b); split; intros; try lia;
      reflexivity.
  - intros field a b. cbv zeta.
    replace (specCompare StringToNumber
               {| OrderSort.field := field;
                  OrderSort.direction := SortDirection.Desc |} a b)
      with (- specCompare StringToNumber
               {| OrderSort.field := field;
                  OrderSort.direction := SortDirection.Asc |} a b)
      by reflexivity.
    split; [|split; [|reflexivity]].
    + unfold specCompare; simpl.
      destruct (js_lt StringToNumber (prop a field) (prop b field));
        [split; [reflexivity | lia]|].
      destruct (js_lt StringToNumber (prop b field) (prop a field));
        split; (lia || discriminate).
    + unfold specCompare; simpl.
      pose proof (js_lt_prop_asym field a b).
      destruct (js_lt StringToNumber (prop a field) (prop b field)).
      * rewrite H0 by reflexivity. split; (lia || discriminate).
      * destruct (js_lt StringToNumber (prop b field) (prop a field));
          split; (lia || discriminate || reflexivity).
  - apply lexCompare_consistent.
  - destruct (ordersResolver_lexCompare _ _ H) as (preds & _ & ->).
    apply StronglySorted_take, Array_sort_sorted, lexCompare_consistent.
Qed.

Lemma filter_firstn_prefix {A} (P : A -> bool) (n : nat) (l : list A) :
  exists rest, List.filter P l = List.filter P (firstn n l) ++ rest.
Proof.
  exists (List.filter P (skipn n l)).
  now rewrite <- List.filter_app, firstn_skipn.
Qed.

Lemma filter_take_prefix {A} (P : A -> bool) (n : Z) (l : list A) :
  exists rest, List.filter P l = List.filter P (R.take n l) ++ rest.
Proof.
  rewrite take_spec. destruct (n <? 0).
  - exists []. now rewrite app_nil_r.
  - apply filter_firstn_prefix.
Qed.

(** C6: the sort is stable.  The records of the output that compare equal
    to a given record stand in the order they have among the matching
    records of the store; when the matching records are already in order
    for the comparator (as they are when the list of sorts is empty or when
    all records tie), the output is a prefix of them as they stand. *)
Theorem sort_is_stable (args : OrdersArgs.t) preds out :
  Array_map compileFilter (OrdersArgs.filters args) = Normal preds ->
  ordersResolver args = Normal out ->
  let compare := lexCompare StringToNumber (OrdersArgs.sort args) in
  let matching := List.filter (R.allPass preds) mockOrders in
  (forall z, exists rest,
     List.filter (tie compare z) matching
     = List.filter (tie compare z) out ++ rest) /\
  (Sorted (precedes compare) matching ->
   out = R.take (OrdersArgs.limit args) matching) /\
  ((forall a b, In a matching -> In b matching -> compare a b = 0) ->
   out = R.take (OrdersArgs.limit args) matching) /\
  (OrdersArgs.sort args = [] ->
   out = R.take (OrdersArgs.limit args) matching).
Proof.
  intros Hp H compare matching.
  destruct (ordersResolver_lexCompare _ _ H) as (preds' & Hp' & ->).
  rewrite Hp in Hp'. inversion Hp'; subst preds'. fold compare matching.
  assert (Hsorted : Sorted (precedes compare) matching ->
                    Array_sort compare matching = matching)
    by apply Array_sort_sorted_id.
  assert (Hties : (forall a b, In a matching -> In b matching ->
                               compare a b = 0) ->
                  Sorted (precedes compare) matching).
  { intros Hall. apply StronglySorted_Sorted.
    generalize dependent matching. intros matching _.
    induction matching as [|x l IH]; intros Hall; constructor.
    - apply IH. intros; apply Hall; now right.
    - rewrite List.Forall_forall. intros y Hy. unfold precedes.
      rewrite (Hall x y); [lia | now left | now right]. }
  split; [|split; [|split]].
  - intros z.
    destruct (filter_take_prefix (tie compare z) (OrdersArgs.limit args)
                (Array_sort compare matching)) as [rest Hrest].
    exists rest. rewrite <- Hrest.
    symmetry. apply Array_sort_stable, lexCompare_consistent.
  - intros Hs. now rewrite Hsorted.
  - intros Hall. now rewrite Hsorted by auto.
  - intros Hnil. rewrite Hsorted; [reflexivity|].
    apply Hties. intros a b _ _. subst compare. now rewrite Hnil.
Qed.

(** ** The limit *)

(** X15: what [R.take] makes of the limit.  With the filters and sorts
    compiled, a limit of 0 gives the empty sequence, a limit that is not
    negative gives that many of the first sorted records, a limit that is
    at least the number of matching records gives all of them, and so does
    every negative limit. *)
Theorem limit_boundary (args : OrdersArgs.t) preds sorters :
  Array_map compileFilter (OrdersArgs.filters args) = Normal preds ->
  Array_map compileSort (OrdersArgs.sort args) = Normal sorters ->
  let matching := R.filter (R.allPass preds) mockOrders in
  let sorted := R.sortWith sorters matching in
  Permutation sorted matching /\
  (OrdersArgs.limit args = 0 -> ordersResolver args = Normal []) /\
  (Z.of_nat (length matching) <= OrdersArgs.limit args ->
   ordersResolver args = Normal sorted) /\
  (OrdersArgs.limit args < 0 -> ordersResolver args = Normal sorted) /\
  (0 <= OrdersArgs.limit args ->
   ordersResolver args
   = Normal (firstn (Z.to_nat (OrdersArgs.limit args)) sorted)).
Proof.
  intros Hp Hs matching sorted.
  assert (Hperm : Permutation sorted matching).
  { subst sorted. rewrite sortWith_spec. apply Array_sort_perm. }
  assert (Hrun : ordersResolver args
                 = Normal (R.take (OrdersArgs.limit args) sorted)).
  { apply ordersResolver_Normal. exists preds, sorters. auto. }
  rewrite Hrun, take_spec.
  split; [assumption|].
  split; [|split; [|split]]; intros Hl.
  - rewrite Hl. reflexivity.
  - destruct (Z.ltb_spec (OrdersArgs.limit args) 0); [reflexivity|].
    f_equal. apply firstn_all2.
    rewrite (Permutation_length Hperm). lia.
  - destruct (Z.ltb_spec (OrdersArgs.limit args) 0); [reflexivity|lia].
  - destruct (Z.ltb_spec (OrdersArgs.limit args) 0); [lia|reflexivity].
Qed.

(** ** Malformed specifications *)

(** C7: when a filter has a kind that is not recognized or a sort has a
    direction that is not recognized, [ordersResolver] throws; the message
    names the offending kind or direction, and no result is returned. *)
Theorem malformed_spec_fails_query (args : OrdersArgs.t) :
  (exists f, In f (OrdersArgs.filters args) /\
             recognizedKind (OrderFilter.kind f) = false) \/
  (exists s, In s (OrdersArgs.sort args) /\
             recognizedDirection (OrderSort.direction s) = false) ->
  (exists f, In f (OrdersArgs.filters args) /\
             recognizedKind (OrderFilter.kind f) = false /\
             ordersResolver args
             = Throw (units "unexpected filter kind: "
                        ++ OrderFilter.kind f)) \/
  (exists s, In s (OrdersArgs.sort args) /\
             recognizedDirection (OrderSort.direction s) = false /\
             ordersResolver args
             = Throw (units "unexpected sort direction: "
                        ++ OrderSort.direction s)).
Proof.
  intros H.
  assert (Hbad : forall f, In f (OrdersArgs.filters args) ->
                 recognizedKind (OrderFilter.kind f) = false ->
                 exists g, In g (OrdersArgs.filters args) /\
                   recognizedKind (OrderFilter.kind g) = false /\
                   ordersResolver args
                   = Throw (units "unexpected filter kind: "
                              ++ OrderFilter.kind g)).
  { intros f Hin Hk.
    destruct (Array_map_Throw compileFilter (OrdersArgs.filters args))
      as (g & m & Hg & Hcg & Hmap).
    { exists f. split; [assumption|].
      eexists. now apply compileFilter_unrecognized. }
    assert (Hkg : recognizedKind (OrderFilter.kind g) = false).
    { destruct (recognizedKind (OrderFilter.kind g)) eqn:E; [|reflexivity].
      destruct (compileFilter_recognized g E) as [p Hp]. congruence. }
    exists g. repeat split; try assumption.
    unfold ordersResolver. rewrite Hmap. cbn [bind].
    rewrite (compileFilter_unrecognized g Hkg) in Hcg. congruence. }
  destruct (existsb (fun f => negb (recognizedKind (OrderFilter.kind f)))
              (OrdersArgs.filters args)) eqn:Ef.
  - apply existsb_exists in Ef. destruct Ef as (f & Hin & Hk).
    apply negb_true_iff in Hk. left. eauto.
  - destruct H as [(f & Hin & Hk)|(s & Hin & Hd)].
    + left. eauto.
    + right.
      destruct (Array_map_Normal compileFilter (OrdersArgs.filters args))
        as [preds Hpreds].
      { intros f Hf. apply compileFilter_recognized.
        destruct (recognizedKind (OrderFilter.kind f)) eqn:E; [reflexivity|].
        assert (existsb
                  (fun f => negb (recognizedKind (OrderFilter.kind f)))
                  (OrdersArgs.filters args) = true).
        { apply existsb_exists. exists f. now rewrite E. }
        congruence. }
      destruct (Array_map_Throw compileSort (OrdersArgs.sort args))
        as (t & m & Ht & Hct & Hmap).
      { exists s. split; [assumption|].
        eexists. now apply compileSort_unrecognized. }
      assert (Hdt : recognizedDirection (OrderSort.direction t) = false).
      { destruct (recognizedDirection (OrderSort.direction t)) eqn:E;
          [|reflexivity].
        destruct (compileSort_recognized t E) as [c Hc]. congruence. }
      exists t. repeat split; try assumption.
      unfold ordersResolver. rewrite Hpreds, Hmap. cbn [bind].
      rewrite (compileSort_unrecognized t Hdt) in Hct. congruence.
Qed.

(** ** The lookup by hash *)

Lemma find_Some {A} (pred : A -> bool) (l : list A) (x : A) :
  R.find pred l = Some x -> In x l /\ pred x = true.
Proof.
  induction l as [|y l IH]; simpl; [discriminate|].
  destruct (pred y) eqn:E.
  - intros H; inversion H; subst. auto.
  - intros H. destruct (IH H). auto.
Qed.

Lemma find_None {A} (pred : A -> bool) (l : list A) :
  R.find pred l = None <-> forall x, In x l -> pred x = false.
Proof.
  induction l as [|y l IH]; simpl.
  - split; [intros _ x [] | reflexivity].
  - destruct (pred y) eqn:E.
    + split; [discriminate|]. intros H.
      specialize (H y (or_introl eq_refl)). congruence.
    + rewrite IH. split.
      * intros H x [<-|Hx]; auto.
      * intros H x Hx. apply H. now right.
Qed.

Lemma NoDup_map_injective {A B} (f : A -> B) (l : list A) (x y : A) :
  List.NoDup (List.map f l) -> In x l -> In y l -> f x = f y -> x = y.
Proof.
  induction l as [|z l IH]; simpl; [contradiction|].
  intros Hnd Hx Hy E. inversion Hnd as [|? ? Hnotin Hnd']; subst.
  destruct Hx as [->|Hx], Hy as [->|Hy]; auto.
  - exfalso. apply Hnotin. rewrite E. now apply in_map.
  - exfalso. apply Hnotin. rewrite <- E. now apply in_map.
Qed.

(** C8: in a store whose hashes are unique, [orderResolver] returns the one
    record whose hash is the hash asked for, and undefined (not an error)
    exactly when the store has no such record; the records returned for two
    distinct hashes are distinct. *)
Theorem lookup_by_hash (h : JsString) :
  List.NoDup (List.map hash mockOrders) ->
  (forall o, orderResolver {| OrderArgs.hash := h |} = Some o
             <-> In o mockOrders /\ hash o = h) /\
  (orderResolver {| OrderArgs.hash := h |} = None
   <-> forall o, In o mockOrders -> hash o <> h) /\
  (forall h' o o',
     h <> h' ->
     orderResolver {| OrderArgs.hash := h |} = Some o ->
     orderResolver {| OrderArgs.hash := h' |} = Some o' ->
     o <> o').
Proof.
  intros Hnd. unfold orderResolver; simpl.
  split; [|split].
  - intros o. split.
    + intros H. apply find_Some in H. destruct H as [Hin Hp].
      apply String_equal_eq in Hp. auto.
    + intros [Hin Hh].
      destruct (R.find (propEq_hash h) mockOrders) as [o'|] eqn:E.
      * apply find_Some in E. destruct E as [Hin' Hp].
        apply String_equal_eq in Hp. f_equal.
        apply (NoDup_map_injective hash mockOrders); congruence.
      * rewrite find_None in E. specialize (E o Hin).
        unfold propEq_hash in E. rewrite Hh, String_equal_refl in E.
        discriminate.
  - rewrite find_None. unfold propEq_hash.
    split; intros H o Hin; specialize (H o Hin).
    + apply String_equal_neq in H. congruence.
    + apply String_equal_neq. congruence.
  - intros h' o o' Hne H H'.
    apply find_Some in H, H'. destruct H as [_ H], H' as [_ H'].
    apply String_equal_eq in H, H'. congruence.
Qed.

End Properties.

(** ** The submission of orders *)

Lemma splitEvery_loop_one {A} (l : list A) :
  R.splitEvery_loop 1 l = List.map (fun x => [x]) l.
Proof.
  induction l as [|x l IH].
  - now rewrite R.splitEvery_loop_equation_2.
  - rewrite R.splitEvery_loop_equation_3.
    change (firstn 1 (x :: l)) with [x].
    change (skipn 1 (x :: l)) with l.
    now rewrite IH.
Qed.

Lemma addOrdersResolver_spec (orders : list NewOrder) :
  addOrdersResolver {| AddOrdersArgs.orders := orders |}
  = Normal
      {| AddOrdersResults.accepted :=
           List.map acceptedResult (firstn 1 orders);
         AddOrdersResults.rejected :=
           List.map rejectedResult (firstn 1 (skipn 1 orders)) |}.
Proof.
  unfold addOrdersResolver. cbn [AddOrdersArgs.orders].
  change (R.splitEvery 1 orders)
    with (Normal (A := list (list NewOrder)) (R.splitEvery_loop 1 orders)).
  rewrite splitEvery_loop_one. cbn [bind].
  destruct orders as [|o1 [|o2 rest]]; reflexivity.
Qed.

(** C3: on three orders or more, [addOrdersResolver] accepts the first
    order, rejects the second and returns the others in neither list. *)
Theorem addOrders_drops_orders (o1 o2 o3 : NewOrder) (rest : list NewOrder) :
  exists r,
    addOrdersResolver {| AddOrdersArgs.orders := o1 :: o2 :: o3 :: rest |}
    = Normal r /\
    List.map (fun a => base (AcceptedOrderResult.order a))
      (AddOrdersResults.accepted r) = [o1] /\
    List.map RejectedOrderResult.order (AddOrdersResults.rejected r) = [o2] /\
    (length (AddOrdersResults.accepted r)
     + length (AddOrdersResults.rejected r)
     < length (o1 :: o2 :: o3 :: rest))%nat.
Proof.
  eexists. rewrite addOrdersResolver_spec. split; [reflexivity|].
  simpl. repeat split; lia.
Qed.

(** C10: on the empty list [addOrdersResolver] returns two empty lists, and
    on a list of one order it returns that order, accepted and new, and an
    empty list of rejected orders; it throws in neither case. *)
Theorem addOrders_small_inputs :
  addOrdersResolver {| AddOrdersArgs.orders := [] |}
  = Normal {| AddOrdersResults.accepted := [];
              AddOrdersResults.rejected := [] |} /\
  forall o : NewOrder,
    exists a,
      addOrdersResolver {| AddOrdersArgs.orders := [o] |}
      = Normal {| AddOrdersResults.accepted := [a];
                  AddOrdersResults.rejected := [] |} /\
      base (AcceptedOrderResult.order a) = o /\
      AcceptedOrderResult.isNew a = true.
Proof.
  split.
  - now rewrite addOrdersResolver_spec.
  - intros o. exists (acceptedResult o).
    rewrite addOrdersResolver_spec. repeat split.
Qed.

(** ** The resolvers over the heap *)

Section HeapProperties.

Variable StringToNumber : JsString -> Number.
Variable mockOrders_ref : positive.

Local Abbreviation heap := (gmap positive (list OrderWithMetadata)).

Lemma fresh_unused (h : heap) : h !! fresh (dom h) = None.
Proof. apply not_elem_of_dom, is_fresh. Qed.

Lemma Array_new_spec (xs : list OrderWithMetadata) (h : heap) :
  Array_new xs h = (Normal (fresh (dom h)), <[fresh (dom h) := xs]> h).
Proof. reflexivity. Qed.

Lemma run_slice_spec from to r (xs : list OrderWithMetadata) (h : heap) :
  h !! r = Some xs ->
  run_slice from to r h
  = (Normal (fresh (dom h)), <[fresh (dom h) := R.slice from to xs]> h).
Proof.
  intros H. unfold run_slice, run_bind, Array_read. now rewrite H.
Qed.

Lemma run_filter_spec pred r (xs : list OrderWithMetadata) (h : heap) :
  h !! r = Some xs ->
  run_filter pred r h
  = (Normal (fresh (dom h)), <[fresh (dom h) := R.filter pred xs]> h).
Proof.
  intros H. unfold run_filter, run_bind, Array_read. now rewrite H.
Qed.

Lemma run_sortWith_spec fns r (xs : list OrderWithMetadata) (h : heap) :
  h !! r = Some xs ->
  run_sortWith fns r h
  = (Normal (fresh (dom h)), <[fresh (dom h) := R.sortWith fns xs]> h).
Proof.
  intros H. unfold run_sortWith, run_bind at 1.
  rewrite (run_slice_spec _ _ _ _ _ H).
  unfold Array_sort_in_place, run_bind, Array_read, Array_write, run_ret.
  rewrite lookup_insert_eq, insert_insert_eq. reflexivity.
Qed.

Lemma run_take_spec n r (xs : list OrderWithMetadata) (h : heap) :
  h !! r = Some xs ->
  run_take n r h
  = (Normal (fresh (dom h)), <[fresh (dom h) := R.take n xs]> h).
Proof. intros H. unfold run_take. now rewrite (run_slice_spec _ _ _ _ _ H). Qed.

Lemma orderResolver_run_spec args (store : list OrderWithMetadata) (h : heap) :
  h !! mockOrders_ref = Some store ->
  orderResolver_run mockOrders_ref args h
  = (Normal (orderResolver store args), h).
Proof.
  intros H. unfold orderResolver_run, run_find, run_bind, Array_read.
  now rewrite H.
Qed.

Lemma ordersResolver_run_Throw args store (h : heap) m :
  h !! mockOrders_ref = Some store ->
  ordersResolver StringToNumber store args = Throw m ->
  ordersResolver_run StringToNumber mockOrders_ref args h = (Throw m, h).
Proof.
  intros H. unfold ordersResolver, ordersResolver_run, run_lift.
  unfold run_bind at 1.
  destruct (Array_map (compileFilter StringToNumber) _) as [preds|m'];
    cbn [bind]; [|congruence].
  unfold run_bind at 1.
  destruct (Array_map (compileSort StringToNumber) _) as [sorters|m'];
    cbn [bind]; [discriminate | congruence].
Qed.

Lemma ordersResolver_run_Normal args store (h : heap) out :
  h !! mockOrders_ref = Some store ->
  ordersResolver StringToNumber store args = Normal out ->
  exists r h',
    ordersResolver_run StringToNumber mockOrders_ref args h = (Normal r, h') /\
    h ⊆ h' /\ h !! r = None /\ h' !! r = Some out.
Proof.
  intros H. unfold ordersResolver, ordersResolver_run, run_lift.
  unfold run_bind at 1.
  destruct (Array_map (compileFilter StringToNumber) _) as [preds|m'];
    cbn [bind]; [|discriminate].
  unfold run_bind at 1.
  destruct (Array_map (compileSort StringToNumber) _) as [sorters|m'];
    cbn [bind]; [|discriminate].
  intros E; inversion E; subst out; clear E.
  unfold run_bind at 1. rewrite (run_filter_spec _ _ _ _ H).
  set (r1 := fresh (dom h)).
  set (h1 := <[r1 := R.filter (R.allPass preds) store]> h).
  unfold run_bind.
  rewrite (run_sortWith_spec sorters r1 _ h1) by apply lookup_insert_eq.
  set (r2 := fresh (dom h1)).
  set (h2 := <[r2 := R.sortWith sorters
                       (R.filter (R.allPass preds) store)]> h1).
  rewrite (run_take_spec _ r2 _ h2) by apply lookup_insert_eq.
  set (r3 := fresh (dom h2)).
  assert (H1 : h ⊆ h1) by apply insert_subseteq, fresh_unused.
  assert (H2 : h1 ⊆ h2) by apply insert_subseteq, fresh_unused.
  assert (H3 : h2 !! r3 = None) by apply fresh_unused.
  eexists _, _. split; [reflexivity|]. split; [|split].
  - transitivity h1; [assumption|]. transitivity h2; [assumption|].
    now apply insert_subseteq.
  - destruct (h !! r3) as [xs|] eqn:E; [|reflexivity].
    assert (h2 !! r3 = Some xs).
    { eapply lookup_weaken; [|exact H2]. eapply lookup_weaken; eassumption. }
    congruence.
  - apply lookup_insert_eq.
Qed.

(** C9: the queries leave the store as it is.  [orderResolver] returns with
    the heap unchanged; after [ordersResolver], whether it returns or
    throws, every array of the heap, the store among them, holds the
    sequence it held before, and the result is an array that did not exist
    before the call. *)
Theorem queries_leave_store_unchanged
    (store : list OrderWithMetadata)
    (h : gmap positive (list OrderWithMetadata)) :
  h !! mockOrders_ref = Some store ->
  (forall args,
     orderResolver_run mockOrders_ref args h
     = (Normal (orderResolver store args), h)) /\
  (forall args,
     let result := ordersResolver_run StringToNumber mockOrders_ref args h in
     snd result !! mockOrders_ref = Some store /\
     (forall r xs, h !! r = Some xs -> snd result !! r = Some xs) /\
     match fst result with
     | Normal r =>
         h !! r = None /\
         exists out,
           snd result !! r = Some out /\
           ordersResolver StringToNumber store args = Normal out
     | Throw m =>
         snd result = h /\
         ordersResolver StringToNumber store args = Throw m
     end).
Proof.
  intros H. split.
  - intros args. now apply orderResolver_run_spec.
  - intros args result. subst result.
    destruct (ordersResolver StringToNumber store args) as [out|m] eqn:E.
    + destruct (ordersResolver_run_Normal args store h out H E)
        as (r & h' & -> & Hsub & Hfresh & Hout).
      simpl. split; [|split].
      * eapply lookup_weaken; eassumption.
      * intros r0 xs Hr0. eapply lookup_weaken; eassumption.
      * eauto.
    + rewrite (ordersResolver_run_Throw args store h m H E). simpl. auto.
Qed.

End HeapProperties.

(** ** Examples on the sample orders *)

Lemma sample_hashes_distinct : List.NoDup (List.map hash sampleOrders).
Proof.
  repeat constructor; simpl; intros H;
    repeat (destruct H as [H|H]; [vm_compute in H; discriminate|]);
    exact H.
Defined.

(** The first sample order offers 50000000000000000 units, and a filter
    for amounts greater than ["9"] compares the two strings. *)
Lemma filter_compares_with_js_operators_witness :
  prop sampleOrder0 OrderField.makerAssetAmount
  = JsStr (units "50000000000000000") /\
  (filterAccepts exampleToNumber
     {| OrderFilter.field := OrderField.makerAssetAmount;
        OrderFilter.kind := FilterKind.Greater;
        OrderFilter.value := JsStr (units "9") |} sampleOrder0
   = Normal true
   <-> code_units_lt (units "9") (units "50000000000000000")).
Proof.
  split; [reflexivity|].
  pose proof (filter_compares_with_js_operators exampleToNumber
                sampleOrder0 OrderField.makerAssetAmount
                (units "50000000000000000") (units "9") eq_refl) as H.
  cbv zeta in H. apply H.
Defined.

Lemma limit_boundary_witness :
  let args := {| OrdersArgs.sort := []; OrdersArgs.filters := [];
                 OrdersArgs.limit := 0 |} in
  Array_map (compileFilter exampleToNumber) (OrdersArgs.filters args)
  = Normal [] /\
  Array_map (compileSort exampleToNumber) (OrdersArgs.sort args)
  = Normal [] /\
  ordersResolver exampleToNumber sampleOrders args = Normal [].
Proof.
  intros args. split; [reflexivity|]. split; [reflexivity|].
  pose proof (limit_boundary exampleToNumber sampleOrders args [] []
                eq_refl eq_refl) as H.
  cbv zeta in H. apply H. reflexivity.
Defined.

Lemma combined_predicate_is_conjunction_witness :
  let filters :=
    [{| OrderFilter.field := OrderField.chainId;
        OrderFilter.kind := FilterKind.Equal;
        OrderFilter.value := JsNum (IntToNumber 1) |};
     {| OrderFilter.field := OrderField.takerFee;
        OrderFilter.kind := FilterKind.NotEqual;
        OrderFilter.value := JsStr (units "0") |}] in
  exists preds,
    Array_map (compileFilter exampleToNumber) filters = Normal preds /\
    (R.allPass preds sampleOrder2 = true <->
     (forall f, In f filters ->
                filterAccepts exampleToNumber f sampleOrder2 = Normal true)).
Proof.
  intros filters. eexists. split; [reflexivity|].
  apply (combined_predicate_is_conjunction exampleToNumber filters _ eq_refl).
Defined.

Lemma sort_follows_priority_witness :
  let args :=
    {| OrdersArgs.sort :=
         [{| OrderSort.field := OrderField.takerFeeAssetData;
             OrderSort.direction := SortDirection.Asc |};
          {| OrderSort.field := OrderField.makerAssetAmount;
             OrderSort.direction := SortDirection.Desc |}];
       OrdersArgs.filters := []; OrdersArgs.limit := 20 |} in
  let out := [sampleOrder1; sampleOrder0; sampleOrder2] in
  ordersResolver exampleToNumber sampleOrders args = Normal out /\
  StronglySorted
    (precedes (lexCompare exampleToNumber (OrdersArgs.sort args))) out.
Proof.
  intros args out.
  assert (H : ordersResolver exampleToNumber sampleOrders args = Normal out)
    by reflexivity.
  split; [exact H|].
  apply (sort_follows_priority exampleToNumber sampleOrders args out H).
Defined.

Lemma sort_is_stable_witness :
  let args :=
    {| OrdersArgs.sort :=
         [{| OrderSort.field := OrderField.chainId;
             OrderSort.direction := SortDirection.Desc |}];
       OrdersArgs.filters := []; OrdersArgs.limit := 2 |} in
  ordersResolver exampleToNumber sampleOrders args
  = Normal [sampleOrder0; sampleOrder1] /\
  exists rest,
    List.filter
      (tie (lexCompare exampleToNumber (OrdersArgs.sort args)) sampleOrder2)
      (List.filter (R.allPass []) sampleOrders)
    = List.filter
        (tie (lexCompare exampleToNumber (OrdersArgs.sort args)) sampleOrder2)
        [sampleOrder0; sampleOrder1] ++ rest.
Proof.
  intros args.
  assert (H : ordersResolver exampleToNumber sampleOrders args
              = Normal [sampleOrder0; sampleOrder1]) by reflexivity.
  split; [exact H|].
  apply (sort_is_stable exampleToNumber sampleOrders args [] _ eq_refl H).
Defined.

Lemma malformed_spec_fails_query_witness :
  let args :=
    {| OrdersArgs.sort :=
         [{| OrderSort.field := OrderField.hash;
             OrderSort.direction := units "UP" |}];
       OrdersArgs.filters :=
         [{| OrderFilter.field := OrderField.salt;
             OrderFilter.kind := FilterKind.Less;
             OrderFilter.value := JsStr (units "2") |}];
       OrdersArgs.limit := 20 |} in
  (exists f, In f (OrdersArgs.filters args) /\
             recognizedKind (OrderFilter.kind f) = false /\
             ordersResolver exampleToNumber sampleOrders args
             = Throw (units "unexpected filter kind: "
                        ++ OrderFilter.kind f)) \/
  (exists s, In s (OrdersArgs.sort args) /\
             recognizedDirection (OrderSort.direction s) = false /\
             ordersResolver exampleToNumber sampleOrders args
             = Throw (units "unexpected sort direction: "
                        ++ OrderSort.direction s)).
Proof.
  intros args.
  apply (malformed_spec_fails_query exampleToNumber sampleOrders args).
  right. eexists. split; [left; reflexivity | reflexivity].
Defined.

Lemma lookup_by_hash_witness :
  List.NoDup (List.map hash sampleOrders) /\
  orderResolver sampleOrders {| OrderArgs.hash := hash sampleOrder1 |}
  = Some sampleOrder1.
Proof.
  split; [exact sample_hashes_distinct|].
  apply (lookup_by_hash sampleOrders (hash sampleOrder1)
           sample_hashes_distinct).
  split; [right; left; reflexivity | reflexivity].
Defined.

Lemma queries_leave_store_unchanged_witness :
  let h : gmap positive (list OrderWithMetadata) :=
    {[ 1%positive := sampleOrders ]} in
  let args :=
    {| OrdersArgs.sort :=
         [{| OrderSort.field := OrderField.salt;
             OrderSort.direction := SortDirection.Desc |}];
       OrdersArgs.filters := []; OrdersArgs.limit := 2 |} in
  h !! 1%positive = Some sampleOrders /\
  snd (ordersResolver_run exampleToNumber 1%positive args h) !! 1%positive
  = Some sampleOrders.
Proof.
  intros h args.
  assert (H : h !! 1%positive = Some sampleOrders) by reflexivity.
  split; [exact H|].
  destruct (queries_leave_store_unchanged exampleToNumber 1%positive
              sampleOrders h H) as [_ Hq].
  exact (proj1 (Hq args)).
Defined.

(** * Further properties of the resolvers *)

Lemma Array_map_app_Throw {A B} (f : A -> Completion B) (l1 l2 : list A) x m :
  (forall y, In y l1 -> exists z, f y = Normal z) ->
  f x = Throw m ->
  Array_map f (l1 ++ x :: l2) = Throw m.
Proof.
  intros Hl1 Hx. induction l1 as [|y l1 IH]; simpl.
  - now rewrite Hx.
  - destruct (Hl1 y (or_introl eq_refl)) as [z ->]. cbn [bind].
    rewrite IH; [reflexivity|]. intros; apply Hl1; now right.
Qed.

Lemma filter_ext_in {A} (p q : A -> bool) (l : list A) :
  (forall x, In x l -> p x = q x) -> R.filter p l = R.filter q l.
Proof.
  induction l as [|x l IH]; intros H; simpl; [reflexivity|].
  rewrite (H x (or_introl eq_refl)), IH; [reflexivity|].
  intros; apply H; now right.
Qed.

Lemma firstn_take_incl {A} (n : Z) (l : list A) x :
  In x (R.take n l) -> In x l.
Proof.
  rewrite take_spec. destruct (n <? 0); [auto|].
  intros H. rewrite <- (firstn_skipn (Z.to_nat n) l).
  apply in_or_app. now left.
Qed.

Lemma digitsValue_monotone (s v : JsString) :
  length s = length v ->
  forall acc1 acc2 r1 r2,
    digitsValue acc1 s = Some r1 -> digitsValue acc2 v = Some r2 ->
    acc1 < acc2 -> r1 < r2.
Proof.
  revert v; induction s as [|c s IH]; intros [|d v] Hlen; simpl in *;
    try discriminate.
  - intros; congruence.
  - intros acc1 acc2 r1 r2.
    destruct (N.leb_spec 48 c) as [Lc|Lc], (N.leb_spec c 57) as [Uc|Uc];
      simpl; try discriminate.
    destruct (N.leb_spec 48 d) as [Ld|Ld], (N.leb_spec d 57) as [Ud|Ud];
      simpl; try discriminate.
    intros E1 E2 Hacc.
    apply (IH v (eq_add_S _ _ Hlen) _ _ _ _ E1 E2). lia.
Qed.

Lemma digitsValue_compare (s v : JsString) :
  length s = length v ->
  forall acc r1 r2,
    digitsValue acc s = Some r1 -> digitsValue acc v = Some r2 ->
    String_lessThan s v = (r1 <? r2).
Proof.
  revert v; induction s as [|c s IH]; intros [|d v] Hlen; simpl in *;
    try discriminate.
  - intros acc r1 r2 E1 E2.
    assert (r1 = r2) by congruence. subst. now rewrite Z.ltb_irrefl.
  - intros acc r1 r2.
    destruct (N.leb_spec 48 c) as [Lc|Lc], (N.leb_spec c 57) as [Uc|Uc];
      simpl; try discriminate.
    destruct (N.leb_spec 48 d) as [Ld|Ld], (N.leb_spec d 57) as [Ud|Ud];
      simpl; try discriminate.
    intros E1 E2. apply eq_add_S in Hlen.
    destruct (N.ltb_spec c d) as [Hcd|Hcd].
    + symmetry. apply Z.ltb_lt.
      apply (digitsValue_monotone s v Hlen _ _ _ _ E1 E2). lia.
    + destruct (N.ltb_spec d c) as [Hdc|Hdc].
      * symmetry. apply Z.ltb_ge. apply Z.lt_le_incl.
        apply (digitsValue_monotone v s (eq_sym Hlen) _ _ _ _ E2 E1). lia.
      * assert (c = d) by lia; subst d. eapply IH; eassumption.
Qed.

Lemma allDigits_value (s : JsString) (acc : Z) :
  allDigits s = true -> exists r, digitsValue acc s = Some r.
Proof.
  revert acc; induction s as [|c s IH]; intros acc; simpl.
  - eauto.
  - intros H. apply andb_true_iff in H. destruct H as [-> H]. auto.
Qed.

Lemma find_first {A} (pred : A -> bool) (l : list A) (x : A) :
  R.find pred l = Some x <->
  exists before after,
    l = before ++ x :: after /\ pred x = true /\
    forall y, In y before -> pred y = false.
Proof.
  induction l as [|z l IH]; simpl.
  - split; [discriminate|]. intros ([|? ?] & ? & E & _); discriminate.
  - destruct (pred z) eqn:Ez.
    + split.
      * intros E; inversion E; subst. exists [], l. repeat split; auto.
        intros y [].
      * intros ([|b before] & after & E & Hx & Hb); simpl in E;
          inversion E; subst; [reflexivity|].
        specialize (Hb b (or_introl eq_refl)). congruence.
    + rewrite IH. split.
      * intros (before & after & -> & Hx & Hb).
        exists (z :: before), after. repeat split; auto.
        intros y [<-|Hy]; auto.
      * intros ([|b before] & after & E & Hx & Hb); simpl in E;
          inversion E; subst; [congruence|].
        exists before, after. repeat split; auto.
        intros y Hy. apply Hb. now right.
Qed.

Lemma Sorted_impl {A} (P Q : A -> A -> Prop) (l : list A) :
  (forall a b, P a b -> Q a b) -> Sorted P l -> Sorted Q l.
Proof.
  intros HPQ. induction 1 as [|x l Hl IH Hhd]; constructor; auto.
  destruct Hhd; constructor; auto.
Qed.

Lemma StronglySorted_filter {A} (P : A -> A -> Prop) (p : A -> bool)
    (l : list A) :
  StronglySorted P l -> StronglySorted P (List.filter p l).
Proof.
  induction 1 as [|x l Hl IH Hx]; simpl; [constructor|].
  destruct (p x); [|assumption].
  constructor; [assumption|].
  rewrite List.Forall_forall in *. intros y Hy.
  apply filter_In in Hy. apply Hx, Hy.
Qed.

Lemma consistent_refl {A} (c : A -> A -> Z) (a : A) :
  consistent c -> c a a = 0.
Proof. intros (Hanti & _). pose proof (Hanti a a). lia. Qed.

(** Two arrangements of the same elements that are both in order for a
    consistent comparator and keep tying elements in the same order are
    the same list. *)
Lemma stable_sorted_unique {A} (c : A -> A -> Z) (l1 l2 : list A) :
  consistent c ->
  Sorted (precedes c) l1 -> Sorted (precedes c) l2 ->
  Permutation l1 l2 ->
  (forall z, List.filter (tie c z) l1 = List.filter (tie c z) l2) ->
  l1 = l2.
Proof.
  intros Hc H1 H2.
  apply Sorted_StronglySorted in H1; [|now apply precedes_transitive].
  apply Sorted_StronglySorted in H2; [|now apply precedes_transitive].
  revert l2 H2. induction H1 as [|x l1 Hl1 IH Hx]; intros l2 H2 Hperm Hties.
  - now apply Permutation_nil in Hperm.
  - destruct H2 as [|y l2 Hl2 Hy].
    + apply Permutation_sym, Permutation_nil in Hperm. discriminate.
    + rewrite List.Forall_forall in Hx, Hy.
      assert (Hxx : c x x = 0) by now apply consistent_refl.
      assert (Hyy : c y y = 0) by now apply consistent_refl.
      assert (Hxy : c x y <= 0).
      { assert (Hin : In y (x :: l1)).
        { apply (Permutation_in _ (Permutation_sym Hperm)). now left. }
        destruct Hin as [<-|Hin]; [lia | now apply Hx]. }
      assert (Hyx : c y x <= 0).
      { assert (Hin : In x (y :: l2)).
        { apply (Permutation_in _ Hperm). now left. }
        destruct Hin as [<-|Hin]; [lia | now apply Hy]. }
      assert (Exy : c x y = 0).
      { destruct Hc as (Hanti & _). pose proof (Hanti x y). lia. }
      assert (x = y).
      { specialize (Hties x). simpl in Hties. unfold tie in Hties.
        rewrite Hxx, Exy in Hties. simpl in Hties. now inversion Hties. }
      subst y. f_equal. apply IH; [assumption| |].
      * now apply Permutation_cons_inv in Hperm.
      * intros z. specialize (Hties z). simpl in Hties.
        destruct (tie c z x); [now inversion Hties | assumption].
Qed.

Lemma StronglySorted_snoc {A} (P : A -> A -> Prop) (l : list A) (x : A) :
  StronglySorted P l -> Forall (fun y => P y x) l ->
  StronglySorted P (l ++ [x]).
Proof.
  induction 1 as [|y l Hl IH Hy]; intros Hx; simpl.
  - repeat constructor.
  - inversion Hx; subst. constructor; [auto|].
    apply Forall_app. split; [assumption | now constructor].
Qed.

Lemma StronglySorted_rev {A} (P : A -> A -> Prop) (l : list A) :
  StronglySorted P l -> StronglySorted (fun a b => P b a) (rev l).
Proof.
  induction 1 as [|x l Hl IH Hx]; simpl; [constructor|].
  apply StronglySorted_snoc; [assumption|].
  rewrite List.Forall_forall in *. intros y Hy. apply Hx.
  now apply in_rev.
Qed.

Lemma Permutation_filter_bool {A} (p : A -> bool) (l l' : list A) :
  Permutation l l' -> Permutation (List.filter p l) (List.filter p l').
Proof.
  induction 1 as [|x l l' _ IH|x y l|l l' l'' _ IH1 _ IH2]; simpl.
  - constructor.
  - destruct (p x); [now constructor | assumption].
  - destruct (p x), (p y); try reflexivity. apply perm_swap.
  - now transitivity (List.filter p l').
Qed.

Lemma NoDup_all_equal {A} (l : list A) :
  List.NoDup l -> (forall a b, In a l -> In b l -> a = b) ->
  (length l <= 1)%nat.
Proof.
  intros Hnd Heq. destruct l as [|x [|y l]]; simpl; try lia.
  exfalso. inversion Hnd as [|? ? Hnotin _]; subst. apply Hnotin.
  rewrite (Heq x y); [now left | now left | right; now left].
Qed.

Lemma Permutation_short {A} (l l' : list A) :
  Permutation l l' -> (length l <= 1)%nat -> l = l'.
Proof.
  intros Hperm Hlen. destruct l as [|x [|y l]]; simpl in Hlen; try lia.
  - now apply Permutation_nil in Hperm.
  - now apply Permutation_length_1_inv in Hperm.
Qed.

(** With no two elements that tie, sorting by the reversed comparator
    gives the reversed list. *)
Lemma Array_sort_flip_rev {A} (c : A -> A -> Z) (l : list A) :
  consistent c -> List.NoDup l ->
  (forall a b, In a l -> In b l -> c a b = 0 -> a = b) ->
  Array_sort (fun a b => c b a) l = rev (Array_sort c l).
Proof.
  intros Hc Hnd Hstrict.
  assert (Hc' : consistent (fun a b => c b a)) by now apply consistent_flip.
  assert (Hp1 : Permutation (Array_sort (fun a b => c b a) l) l)
    by apply Array_sort_perm.
  assert (Hp2 : Permutation (rev (Array_sort c l)) l).
  { rewrite <- Permutation_rev. apply Array_sort_perm. }
  apply (stable_sorted_unique (fun a b => c b a)); try assumption.
  - apply StronglySorted_Sorted. now apply Array_sort_sorted.
  - apply StronglySorted_Sorted.
    apply (StronglySorted_rev (precedes c)). now apply Array_sort_sorted.
  - now rewrite Hp1, Hp2.
  - intros z. apply Permutation_short.
    + apply Permutation_filter_bool. now rewrite Hp1, Hp2.
    + apply NoDup_all_equal.
      * apply List.NoDup_filter.
        now apply (Permutation_NoDup (Permutation_sym Hp1)).
      * intros a b Ha Hb. apply filter_In in Ha, Hb.
        destruct Ha as [Ha Ta], Hb as [Hb Tb].
        apply (Permutation_in _ Hp1) in Ha, Hb.
        unfold tie in Ta, Tb. apply Z.eqb_eq in Ta, Tb.
        apply Hstrict; try assumption.
        apply (consistent_tie_trans c a z b Hc); [assumption|].
        destruct Hc as (Hanti & _). rewrite Hanti. lia.
Qed.

Lemma StronglySorted_after {A} (P : A -> A -> Prop) (l1 l2 : list A) x :
  StronglySorted P (l1 ++ x :: l2) -> Forall (P x) l2.
Proof.
  induction l1 as [|y l1 IH]; simpl; intros H; inversion H; subst; auto.
Qed.

Section FurtherProperties.

Variable StringToNumber : JsString -> Number.
Variable mockOrders : list OrderWithMetadata.

Local Abbreviation compileFilter := (compileFilter StringToNumber).
Local Abbreviation compileSort := (compileSort StringToNumber).
Local Abbreviation filterAccepts := (filterAccepts StringToNumber).
Local Abbreviation orderResolver := (orderResolver mockOrders).
Local Abbreviation ordersResolver := (ordersResolver StringToNumber mockOrders).

Lemma allPass_compiled (filters : list OrderFilter.t) preds order :
  Array_map compileFilter filters = Normal preds ->
  R.allPass preds order = true <->
  (forall f, In f filters -> filterAccepts f order = Normal true).
Proof.
  intros Hmap. apply Array_map_Forall2 in Hmap. rewrite allPass_Forall.
  induction Hmap as [|f p fs ps Hf _ IH].
  - split; [intros _ f [] | constructor].
  - split.
    + inversion 1; subst. intros g [<-|Hg].
      * unfold filterAccepts. rewrite Hf. cbn [bind]. now f_equal.
      * now apply IH.
    + intros H. constructor.
      * specialize (H f (or_introl eq_refl)).
        unfold filterAccepts in H. rewrite Hf in H. cbn [bind] in H.
        now inversion H.
      * apply IH. intros g Hg. apply H. now right.
Qed.

(** X1: every record [ordersResolver] returns is a record of the store that
    every filter accepts; and when the limit does not cut the result (it is
    negative, or at least the size of the store), every such record of the
    store is returned. *)
Theorem ordersResolver_returns_the_matching_records
    (args : OrdersArgs.t) out :
  ordersResolver args = Normal out ->
  (forall o, In o out ->
     In o mockOrders /\
     forall f, In f (OrdersArgs.filters args) ->
               filterAccepts f o = Normal true) /\
  (OrdersArgs.limit args < 0 \/
   Z.of_nat (length mockOrders) <= OrdersArgs.limit args ->
   forall o,
     In o mockOrders ->
     (forall f, In f (OrdersArgs.filters args) ->
                filterAccepts f o = Normal true) ->
     In o out).
Proof.
  intros H. apply ordersResolver_Normal in H.
  destruct H as (preds & sorters & Hp & Hs & ->).
  assert (Hperm : Permutation
                    (R.sortWith sorters
                       (R.filter (R.allPass preds) mockOrders))
                    (List.filter (R.allPass preds) mockOrders)).
  { rewrite sortWith_spec, R_filter_filter. apply Array_sort_perm. }
  split.
  - intros o Ho. apply firstn_take_incl in Ho.
    apply (Permutation_in _ Hperm) in Ho. apply filter_In in Ho.
    destruct Ho as [Hin Hall]. split; [assumption|].
    now apply (allPass_compiled _ _ _ Hp).
  - intros Hl o Hin Hacc.
    assert (Hso : In o (R.sortWith sorters
                          (R.filter (R.allPass preds) mockOrders))).
    { apply (Permutation_in _ (Permutation_sym Hperm)).
      apply filter_In. split; [assumption|].
      now apply (allPass_compiled _ _ _ Hp). }
    rewrite take_spec.
    destruct (Z.ltb_spec (OrdersArgs.limit args) 0); [assumption|].
    rewrite firstn_all2; [assumption|].
    rewrite (Permutation_length Hperm).
    pose proof (List.filter_length_le (R.allPass preds) mockOrders). lia.
Qed.

(** X2: the result is never longer than the store, never longer than a
    limit that is not negative, and has no record twice when the store has
    none twice. *)
Theorem ordersResolver_result_is_bounded (args : OrdersArgs.t) out :
  ordersResolver args = Normal out ->
  (length out <= length mockOrders)%nat /\
  (0 <= OrdersArgs.limit args ->
   Z.of_nat (length out) <= OrdersArgs.limit args) /\
  (List.NoDup mockOrders -> List.NoDup out).
Proof.
  intros H. apply ordersResolver_Normal in H.
  destruct H as (preds & sorters & Hp & Hs & ->).
  assert (Hperm : Permutation
                    (R.sortWith sorters
                       (R.filter (R.allPass preds) mockOrders))
                    (List.filter (R.allPass preds) mockOrders)).
  { rewrite sortWith_spec, R_filter_filter. apply Array_sort_perm. }
  pose proof (List.filter_length_le (R.allPass preds) mockOrders) as Hle.
  pose proof (Permutation_length Hperm) as Hlen.
  rewrite take_spec.
  destruct (Z.ltb_spec (OrdersArgs.limit args) 0) as [Hneg|Hpos].
  - split; [lia|]. split; [lia|].
    intros Hnd. apply (Permutation_NoDup (Permutation_sym Hperm)).
    now apply List.NoDup_filter.
  - pose proof (length_firstn (Z.to_nat (OrdersArgs.limit args))
                  (R.sortWith sorters
                     (R.filter (R.allPass preds) mockOrders))) as Hf.
    split; [lia|]. split; [lia|].
    intros Hnd.
    assert (Hs' : List.NoDup (R.sortWith sorters
                           (R.filter (R.allPass preds) mockOrders))).
    { apply (Permutation_NoDup (Permutation_sym Hperm)).
      now apply List.NoDup_filter. }
    rewrite <- (firstn_skipn (Z.to_nat (OrdersArgs.limit args))) in Hs'.
    now apply List.NoDup_app_remove_r in Hs'.
Qed.

(** X3: [ordersResolver] returns a result exactly when the kind of every
    filter and the direction of every sort is recognized, whatever the
    store holds. *)
Theorem ordersResolver_succeeds_iff_well_formed (args : OrdersArgs.t) :
  (exists out, ordersResolver args = Normal out) <->
  (forall f, In f (OrdersArgs.filters args) ->
             recognizedKind (OrderFilter.kind f) = true) /\
  (forall s, In s (OrdersArgs.sort args) ->
             recognizedDirection (OrderSort.direction s) = true).
Proof.
  split.
  - intros [out H]. apply ordersResolver_Normal in H.
    destruct H as (preds & sorters & Hp & Hs & _).
    apply Array_map_Forall2 in Hp, Hs. split.
    + intros f Hf. induction Hp as [|g p gs ps Hg _ IH]; [destruct Hf|].
      destruct Hf as [<-|Hf]; [|now apply IH].
      eapply compileFilter_Normal_recognized; eassumption.
    + intros t Ht. induction Hs as [|g p gs ps Hg _ IH]; [destruct Ht|].
      destruct Ht as [<-|Ht]; [|now apply IH].
      eapply compileSort_Normal_recognized; eassumption.
  - intros [Hf Hs].
    destruct (Array_map_Normal compileFilter (OrdersArgs.filters args))
      as [preds Hp].
    { intros f Hin. apply compileFilter_recognized; auto. }
    destruct (Array_map_Normal compileSort (OrdersArgs.sort args))
      as [sorters Hso].
    { intros t Hin. apply compileSort_recognized; auto. }
    eexists. apply ordersResolver_Normal. exists preds, sorters. eauto.
Qed.

(** X4: the filters are compiled before the sorts, from left to right: the
    error names the first filter kind that is not recognized, whatever the
    sorts are; when every filter kind is recognized it names the first sort
    direction that is not. *)
Theorem ordersResolver_reports_first_malformed_clause
    (sorts : list OrderSort.t) (filters : list OrderFilter.t) (limit : Z) :
  (forall good bad rest,
     filters = good ++ bad :: rest ->
     (forall f, In f good -> recognizedKind (OrderFilter.kind f) = true) ->
     recognizedKind (OrderFilter.kind bad) = false ->
     ordersResolver {| OrdersArgs.sort := sorts;
                       OrdersArgs.filters := filters;
                       OrdersArgs.limit := limit |}
     = Throw (units "unexpected filter kind: " ++ OrderFilter.kind bad)) /\
  (forall good bad rest,
     (forall f, In f filters -> recognizedKind (OrderFilter.kind f) = true) ->
     sorts = good ++ bad :: rest ->
     (forall s, In s good ->
                recognizedDirection (OrderSort.direction s) = true) ->
     recognizedDirection (OrderSort.direction bad) = false ->
     ordersResolver {| OrdersArgs.sort := sorts;
                       OrdersArgs.filters := filters;
                       OrdersArgs.limit := limit |}
     = Throw (units "unexpected sort direction: "
                ++ OrderSort.direction bad)).
Proof.
  split.
  - intros good bad rest -> Hgood Hbad.
    unfold ordersResolver. cbn [OrdersArgs.filters].
    rewrite (Array_map_app_Throw compileFilter good rest bad
               (units "unexpected filter kind: " ++ OrderFilter.kind bad)).
    + reflexivity.
    + intros f Hf. apply compileFilter_recognized. auto.
    + now apply compileFilter_unrecognized.
  - intros good bad rest Hf -> Hgood Hbad.
    unfold ordersResolver. cbn [OrdersArgs.filters OrdersArgs.sort].
    destruct (Array_map_Normal compileFilter filters) as [preds ->].
    { intros f Hin. apply compileFilter_recognized; auto. }
    cbn [bind].
    rewrite (Array_map_app_Throw compileSort good rest bad
               (units "unexpected sort direction: "
                  ++ OrderSort.direction bad)).
    + reflexivity.
    + intros s Hs. apply compileSort_recognized. auto.
    + now apply compileSort_unrecognized.
Qed.

(** X5: without any assumption on the store, [orderResolver] returns the
    first record, in the order of the store, whose hash is the hash asked
    for: the records before it have another hash. *)
Theorem orderResolver_returns_first_match (h : JsString) o :
  orderResolver {| OrderArgs.hash := h |} = Some o <->
  exists before after,
    mockOrders = before ++ o :: after /\ hash o = h /\
    forall x, In x before -> hash x <> h.
Proof.
  unfold orderResolver. cbn [OrderArgs.hash]. rewrite find_first.
  unfold propEq_hash. split; intros (before & after & E & Ho & Hb);
    exists before, after; (split; [assumption|]); split.
  - apply String_equal_eq in Ho. congruence.
  - intros x Hx. specialize (Hb x Hx). apply String_equal_neq in Hb.
    congruence.
  - apply String_equal_eq. congruence.
  - intros x Hx. apply String_equal_neq. specialize (Hb x Hx). congruence.
Qed.

Lemma hash_ascending_precedes (a b : OrderWithMetadata) :
  String_lessThan (hash b) (hash a) = false ->
  precedes
    (R.sortWith_comparator
       [ascend StringToNumber (fun order => prop order OrderField.hash)])
    a b.
Proof.
  intros H. unfold precedes, R.sortWith_comparator, ascend, js_lt, js_gt.
  simpl. rewrite H.
  destruct (String_lessThan (hash a) (hash b)); simpl; lia.
Qed.

(** X6: on a store that is in ascending order of hash, the sort by hash
    that the schema gives by default changes nothing: the result is the
    matching records as they stand in the store, cut at the limit. *)
Theorem default_sort_keeps_store_order
    (filters : list OrderFilter.t) preds (limit : Z) :
  Sorted (fun a b => String_lessThan (hash b) (hash a) = false) mockOrders ->
  Array_map compileFilter filters = Normal preds ->
  ordersResolver {| OrdersArgs.sort := defaultSort;
                    OrdersArgs.filters := filters;
                    OrdersArgs.limit := limit |}
  = Normal (R.take limit (R.filter (R.allPass preds) mockOrders)).
Proof.
  intros Hsorted Hp.
  set (asc := ascend StringToNumber
                (fun order => prop order OrderField.hash)).
  assert (Hc : consistent (R.sortWith_comparator [asc])).
  { apply consistent_sortWith_comparator. constructor; [|constructor].
    apply ascend_consistent, prop_same_type. }
  apply ordersResolver_Normal. exists preds, [asc].
  split; [assumption|]. split; [reflexivity|].
  cbn [OrdersArgs.limit]. f_equal.
  rewrite sortWith_spec, R_filter_filter.
  symmetry. apply Array_sort_sorted_id.
  apply StronglySorted_Sorted, StronglySorted_filter.
  apply Sorted_StronglySorted; [now apply precedes_transitive|].
  apply (Sorted_impl _ _ _ hash_ascending_precedes Hsorted).
Qed.

Lemma ordersResolver_In (args : OrdersArgs.t) out o :
  ordersResolver args = Normal out -> In o out ->
  forall f, In f (OrdersArgs.filters args) ->
            filterAccepts f o = Normal true.
Proof.
  intros H Ho. apply ordersResolver_Normal in H.
  destruct H as (preds & sorters & Hp & Hs & ->).
  apply firstn_take_incl in Ho.
  rewrite sortWith_spec, R_filter_filter in Ho.
  apply (Permutation_in _ (Array_sort_perm _ _)) in Ho.
  apply filter_In in Ho. destruct Ho as [_ Hall].
  now apply (allPass_compiled _ _ _ Hp).
Qed.

(** X7: strict equality does not convert its operands.  A filter [EQUAL]
    whose value is a number accepts no order on a field that holds a
    string, and one whose value is a string accepts no order on [chainId];
    [NOT_EQUAL] then accepts every order.  A query with the filter
    [chainId EQUAL "1"] (the string) returns no record. *)
Theorem equality_across_types_never_holds :
  (forall order field x,
     field <> OrderField.chainId ->
     filterAccepts
       {| OrderFilter.field := field; OrderFilter.kind := FilterKind.Equal;
          OrderFilter.value := JsNum x |} order = Normal false /\
     filterAccepts
       {| OrderFilter.field := field; OrderFilter.kind := FilterKind.NotEqual;
          OrderFilter.value := JsNum x |} order = Normal true) /\
  (forall order s,
     filterAccepts
       {| OrderFilter.field := OrderField.chainId;
          OrderFilter.kind := FilterKind.Equal;
          OrderFilter.value := JsStr s |} order = Normal false /\
     filterAccepts
       {| OrderFilter.field := OrderField.chainId;
          OrderFilter.kind := FilterKind.NotEqual;
          OrderFilter.value := JsStr s |} order = Normal true) /\
  (forall args s out,
     In {| OrderFilter.field := OrderField.chainId;
           OrderFilter.kind := FilterKind.Equal;
           OrderFilter.value := JsStr s |} (OrdersArgs.filters args) ->
     ordersResolver args = Normal out ->
     out = []).
Proof.
  split; [|split].
  - intros order field x Hf.
    rewrite filterAccepts_Equal, filterAccepts_NotEqual.
    destruct field; try congruence; split; reflexivity.
  - intros order s. split; reflexivity.
  - intros args s [|o out] Hin H; [reflexivity|].
    pose proof (ordersResolver_In args (o :: out) o H (or_introl eq_refl)
                  _ Hin) as Ho.
    discriminate Ho.
Qed.

(** X8: on two strings of decimal digits of the same length the order of
    the strings is the order of the numbers they write: on a field that
    holds such a string, with such a value, the four ordering filters
    decide as the numeric comparison does. *)
Theorem equal_length_digits_compare_as_numbers
    (order : OrderWithMetadata) (field : OrderField.t) (s v : JsString) :
  prop order field = JsStr s ->
  allDigits s = true -> allDigits v = true -> length s = length v ->
  let spec kind :=
    {| OrderFilter.field := field; OrderFilter.kind := kind;
       OrderFilter.value := JsStr v |} in
  exists a b,
    decimalValue s = Some a /\ decimalValue v = Some b /\
    filterAccepts (spec FilterKind.Greater) order = Normal (b <? a) /\
    filterAccepts (spec FilterKind.GreaterOrEqual) order = Normal (b <=? a) /\
    filterAccepts (spec FilterKind.Less) order = Normal (a <? b) /\
    filterAccepts (spec FilterKind.LessOrEqual) order = Normal (a <=? b).
Proof.
  intros Hs Ds Dv Hlen spec. subst spec. cbv beta.
  destruct (allDigits_value s 0 Ds) as [a Ha].
  destruct (allDigits_value v 0 Dv) as [b Hb].
  exists a, b. unfold decimalValue.
  rewrite filterAccepts_Greater, filterAccepts_GreaterOrEqual,
    filterAccepts_Less, filterAccepts_LessOrEqual.
  rewrite Hs. unfold js_gt, js_ge, js_lt, js_le; simpl.
  rewrite (digitsValue_compare s v Hlen 0 a b Ha Hb).
  rewrite (digitsValue_compare v s (eq_sym Hlen) 0 b a Hb Ha).
  rewrite !Z.leb_antisym. repeat split; assumption.
Qed.

(** X9: a smaller limit returns a prefix of what a larger limit, or a
    negative one, returns. *)
Theorem smaller_limit_returns_prefix
    (sorts : list OrderSort.t) (filters : list OrderFilter.t) (n m : Z) out :
  0 <= n -> n <= m \/ m < 0 ->
  ordersResolver {| OrdersArgs.sort := sorts; OrdersArgs.filters := filters;
                    OrdersArgs.limit := m |} = Normal out ->
  ordersResolver {| OrdersArgs.sort := sorts; OrdersArgs.filters := filters;
                    OrdersArgs.limit := n |}
  = Normal (firstn (Z.to_nat n) out).
Proof.
  intros Hn Hm H. apply ordersResolver_Normal in H.
  destruct H as (preds & sorters & Hp & Hs & ->).
  cbn [OrdersArgs.filters OrdersArgs.sort OrdersArgs.limit] in *.
  apply ordersResolver_Normal. exists preds, sorters.
  split; [assumption|]. split; [assumption|].
  cbn [OrdersArgs.limit]. rewrite !take_spec.
  destruct (Z.ltb_spec n 0); [lia|].
  destruct (Z.ltb_spec m 0); [reflexivity|].
  rewrite List.firstn_firstn. f_equal. lia.
Qed.

(** X10: the order in which the filters are given does not change the
    result. *)
Theorem filter_order_is_irrelevant
    (sorts : list OrderSort.t) (filters filters' : list OrderFilter.t)
    (limit : Z) out :
  Permutation filters filters' ->
  ordersResolver {| OrdersArgs.sort := sorts; OrdersArgs.filters := filters;
                    OrdersArgs.limit := limit |} = Normal out ->
  ordersResolver {| OrdersArgs.sort := sorts; OrdersArgs.filters := filters';
                    OrdersArgs.limit := limit |} = Normal out.
Proof.
  intros Hperm H. apply ordersResolver_Normal in H.
  destruct H as (preds & sorters & Hp & Hs & ->).
  cbn [OrdersArgs.filters OrdersArgs.sort OrdersArgs.limit] in *.
  destruct (Array_map_Normal compileFilter filters') as [preds' Hp'].
  { intros f Hf. apply compileFilter_recognized.
    apply (Permutation_in _ (Permutation_sym Hperm)) in Hf.
    apply Array_map_Forall2 in Hp. clear - Hp Hf.
    induction Hp as [|g p gs ps Hg _ IH]; [destruct Hf|].
    destruct Hf as [<-|Hf]; [|now apply IH].
    eapply compileFilter_Normal_recognized; eassumption. }
  apply ordersResolver_Normal. exists preds', sorters.
  split; [assumption|]. split; [assumption|].
  cbn [OrdersArgs.limit]. do 2 f_equal.
  apply filter_ext_in. intros o _.
  destruct (R.allPass preds o) eqn:E, (R.allPass preds' o) eqn:E';
    try reflexivity; exfalso.
  - rewrite (allPass_compiled _ _ _ Hp) in E.
    assert (R.allPass preds' o = true); [|congruence].
    apply (allPass_compiled _ _ _ Hp'). intros f Hf. apply E.
    now apply (Permutation_in _ (Permutation_sym Hperm)).
  - rewrite (allPass_compiled _ _ _ Hp') in E'.
    assert (R.allPass preds o = true); [|congruence].
    apply (allPass_compiled _ _ _ Hp). intros f Hf. apply E'.
    now apply (Permutation_in _ Hperm).
Qed.

(** X11: the result of the sort does not depend on how the engine sorts, as
    long as its sort is stable: any arrangement of the matching records
    that is in order for the comparator of the sorts and keeps the records
    that tie in the order of the store is the one [ordersResolver] cuts at
    the limit. *)
Theorem sorted_result_is_determined
    (args : OrdersArgs.t) preds out (candidate : list OrderWithMetadata) :
  Array_map compileFilter (OrdersArgs.filters args) = Normal preds ->
  ordersResolver args = Normal out ->
  let compare := lexCompare StringToNumber (OrdersArgs.sort args) in
  let matching := List.filter (R.allPass preds) mockOrders in
  Permutation candidate matching ->
  Sorted (precedes compare) candidate ->
  (forall z, List.filter (tie compare z) candidate
             = List.filter (tie compare z) matching) ->
  out = R.take (OrdersArgs.limit args) candidate.
Proof.
  intros Hp H compare matching Hperm Hsorted Hties.
  destruct (ordersResolver_lexCompare StringToNumber mockOrders _ _ H)
    as (preds' & Hp' & ->).
  rewrite Hp in Hp'. inversion Hp'; subst preds'. fold compare matching.
  f_equal. symmetry.
  assert (Hc : consistent compare) by apply lexCompare_consistent.
  apply (stable_sorted_unique compare); try assumption.
  - apply StronglySorted_Sorted. now apply Array_sort_sorted.
  - rewrite Hperm. symmetry. apply Array_sort_perm.
  - intros z. rewrite Hties. symmetry. now apply Array_sort_stable.
Qed.

Lemma ascend_tie_same_value (field : OrderField.t) (a b : OrderWithMetadata) :
  ascend StringToNumber (fun order => prop order field) a b = 0 ->
  prop a field = prop b field.
Proof.
  unfold ascend, js_lt, js_gt.
  destruct (prop_same_type field) as [[key Hk]|[key Hk]]; rewrite !Hk; simpl.
  - destruct (String_lessThan (key a) (key b)) eqn:E1; [discriminate|].
    destruct (String_lessThan (key b) (key a)) eqn:E2; [discriminate|].
    intros _. f_equal. now apply String_lessThan_total.
  - rewrite !Qltb_inject_Z.
    destruct (Z.ltb_spec (key a) (key b)); [discriminate|].
    destruct (Z.ltb_spec (key b) (key a)); [discriminate|].
    intros _. do 2 f_equal. lia.
Qed.

(** X13: when no two records of the store have the same value in a field,
    sorting by this field in descending order returns the reverse of what
    sorting in ascending order returns (the limit being negative, so that
    nothing is cut). *)
Theorem descending_reverses_ascending
    (field : OrderField.t) (filters : list OrderFilter.t) (limit : Z) out :
  List.NoDup (List.map (fun order => prop order field) mockOrders) ->
  limit < 0 ->
  ordersResolver
    {| OrdersArgs.sort := [{| OrderSort.field := field;
                              OrderSort.direction := SortDirection.Asc |}];
       OrdersArgs.filters := filters; OrdersArgs.limit := limit |}
  = Normal out ->
  ordersResolver
    {| OrdersArgs.sort := [{| OrderSort.field := field;
                              OrderSort.direction := SortDirection.Desc |}];
       OrdersArgs.filters := filters; OrdersArgs.limit := limit |}
  = Normal (rev out).
Proof.
  intros Hnd Hlimit H. apply ordersResolver_Normal in H.
  destruct H as (preds & sorters & Hp & Hs & ->).
  cbn [OrdersArgs.filters OrdersArgs.sort OrdersArgs.limit] in *.
  set (fn := fun order : OrderWithMetadata => prop order field) in *.
  assert (sorters = [ascend StringToNumber fn]) as ->
    by (inversion Hs; reflexivity).
  apply ordersResolver_Normal. exists preds, [descend StringToNumber fn].
  split; [assumption|]. split; [reflexivity|].
  cbn [OrdersArgs.limit]. rewrite !take_spec.
  destruct (Z.ltb_spec limit 0); [|lia].
  rewrite !sortWith_spec, R_filter_filter.
  set (matching := List.filter (R.allPass preds) mockOrders).
  set (c := R.sortWith_comparator [ascend StringToNumber fn]).
  assert (Hc : consistent c).
  { apply consistent_sortWith_comparator. constructor; [|constructor].
    apply ascend_consistent, prop_same_type. }
  rewrite (Array_sort_ext
             (R.sortWith_comparator [descend StringToNumber fn])
             (fun a b => c b a) matching) by reflexivity.
  symmetry. apply Array_sort_flip_rev; [assumption| |].
  - apply List.NoDup_filter. eapply NoDup_map_inv. exact Hnd.
  - intros a b Ha Hb Hab.
    apply filter_In in Ha, Hb. destruct Ha as [Ha _], Hb as [Hb _].
    apply (NoDup_map_injective fn mockOrders a b Hnd Ha Hb).
    apply ascend_tie_same_value.
    unfold c in Hab. simpl in Hab.
    destruct (Z.eqb_spec (ascend StringToNumber fn a b) 0); assumption.
Qed.

(** C1: the filter of the claim, [makerAssetAmount GREATER "9"], rejects
    every order whose amount is ["10"], though 10 is greater than 9: no
    query that has this filter returns such an order. *)
Theorem greater_than_9_rejects_10 (order : OrderWithMetadata) :
  makerAssetAmount (base order) = units "10" ->
  let greater9 :=
    {| OrderFilter.field := OrderField.makerAssetAmount;
       OrderFilter.kind := FilterKind.Greater;
       OrderFilter.value := JsStr (units "9") |} in
  decimalValue (units "10") = Some 10 /\
  decimalValue (units "9") = Some 9 /\
  filterAccepts greater9 order = Normal false /\
  forall args out,
    In greater9 (OrdersArgs.filters args) ->
    ordersResolver args = Normal out ->
    ~ In order out.
Proof.
  intros Hamount greater9.
  assert (Hrej : filterAccepts greater9 order = Normal false).
  { subst greater9. rewrite filterAccepts_Greater.
    cbn [prop]. rewrite Hamount. reflexivity. }
  repeat split; try assumption.
  intros args out Hin H Ho.
  pose proof (ordersResolver_In args out order H Ho greater9 Hin) as Hacc.
  rewrite Hrej in Hacc. discriminate.
Qed.

(** C2: with a negative limit [ordersResolver] does not return the empty
    sequence: it returns every matching record. *)
Theorem negative_limit_returns_every_match
    (args : OrdersArgs.t) preds sorters :
  Array_map compileFilter (OrdersArgs.filters args) = Normal preds ->
  Array_map compileSort (OrdersArgs.sort args) = Normal sorters ->
  OrdersArgs.limit args < 0 ->
  exists out,
    ordersResolver args = Normal out /\
    out = R.sortWith sorters (R.filter (R.allPass preds) mockOrders) /\
    Permutation out (R.filter (R.allPass preds) mockOrders).
Proof.
  intros Hp Hs Hneg. eexists. split; [|split; [reflexivity|]].
  - apply ordersResolver_Normal. exists preds, sorters.
    split; [assumption|]. split; [assumption|].
    rewrite take_spec. destruct (Z.ltb_spec (OrdersArgs.limit args) 0);
      [reflexivity | lia].
  - rewrite sortWith_spec. apply Array_sort_perm.
Qed.

(** C5: a sort [ASC] on a field that holds decimal strings is not ascending
    in the numbers they write.  When the string of [a] is before the string
    of [b] by code unit, no result of a query that sorts by this field
    first, [ASC], has [b] before [a], also when the number of [a] is the
    greater one. *)
Theorem ascending_sort_puts_larger_number_first
    (a b : OrderWithMetadata) (field : OrderField.t) (s t : JsString)
    (x y : Z) :
  prop a field = JsStr s -> prop b field = JsStr t ->
  decimalValue s = Some x -> decimalValue t = Some y ->
  y < x -> code_units_lt s t ->
  forall rest filters limit out,
    ordersResolver
      {| OrdersArgs.sort :=
           {| OrderSort.field := field;
              OrderSort.direction := SortDirection.Asc |} :: rest;
         OrdersArgs.filters := filters; OrdersArgs.limit := limit |}
    = Normal out ->
    forall before after, out = before ++ b :: after -> ~ In a after.
Proof.
  intros Ha Hb _ _ _ Hlt rest filters limit out H before after -> Hin.
  destruct (ordersResolver_lexCompare StringToNumber mockOrders _ _ H)
    as (preds & _ & Hout).
  cbn [OrdersArgs.sort OrdersArgs.limit] in Hout.
  set (asc := {| OrderSort.field := field;
                 OrderSort.direction := SortDirection.Asc |}) in *.
  assert (Hsorted : StronglySorted
                      (precedes (lexCompare StringToNumber (asc :: rest)))
                      (before ++ b :: after)).
  { rewrite Hout. apply StronglySorted_take, Array_sort_sorted,
      lexCompare_consistent. }
  apply StronglySorted_after in Hsorted.
  rewrite List.Forall_forall in Hsorted. specialize (Hsorted a Hin).
  unfold precedes in Hsorted. simpl in Hsorted.
  assert (Hba : specCompare StringToNumber asc b a = 1).
  { unfold specCompare, asc, js_lt. cbn [OrderSort.field OrderSort.direction].
    rewrite Ha, Hb. simpl.
    apply String_lessThan_spec in Hlt. rewrite Hlt.
    now rewrite (String_lessThan_asym _ _ Hlt). }
  rewrite Hba in Hsorted. lia.
Qed.

End FurtherProperties.

(** X12: [addOrdersResolver] never throws and classifies the first two
    orders only: the accepted list holds the first order, once, and nothing
    else, marked new, with the one hash and the one remaining amount the
    resolver writes; the rejected list holds the second order, once, and
    nothing else, with the code [EthRPCRequestFailed]; the orders after the
    second are in neither list. *)
Theorem addOrders_classifies_first_two (orders : list NewOrder) :
  exists r,
    addOrdersResolver {| AddOrdersArgs.orders := orders |} = Normal r /\
    List.map (fun a => base (AcceptedOrderResult.order a))
      (AddOrdersResults.accepted r) = firstn 1 orders /\
    List.map RejectedOrderResult.order (AddOrdersResults.rejected r)
    = firstn 1 (skipn 1 orders) /\
    Forall
      (fun a =>
         AcceptedOrderResult.isNew a = true /\
         hash (AcceptedOrderResult.order a)
         = units
             "0x06d15403630b6d83fbacbf0864eb76c2db3d6e6fc8adec8a95fc536593f17c53"
         /\
         remainingFillableTakerAssetAmount (AcceptedOrderResult.order a)
         = units "150000")
      (AddOrdersResults.accepted r) /\
    Forall
      (fun x =>
         RejectedOrderResult.code x = EthRPCRequestFailed /\
         RejectedOrderResult.hash x
         = units
             "0x06d15403630b6d83fbacbf0864eb76c2db3d6e6fc8adec8a95fc536593f17c53"
         /\
         RejectedOrderResult.message x
         = units "network request to Ethereum RPC endpoint failed")
      (AddOrdersResults.rejected r).
Proof.
  eexists. rewrite addOrdersResolver_spec. split; [reflexivity|].
  destruct orders as [|o1 [|o2 rest]]; simpl;
    repeat split; repeat constructor.
Qed.

(** ** Further examples on the sample orders *)

Lemma ordersResolver_returns_the_matching_records_witness :
  let args :=
    {| OrdersArgs.sort := [];
       OrdersArgs.filters :=
         [{| OrderFilter.field := OrderField.makerFee;
             OrderFilter.kind := FilterKind.NotEqual;
             OrderFilter.value := JsStr (units "0") |}];
       OrdersArgs.limit := 20 |} in
  ordersResolver exampleToNumber sampleOrders args
  = Normal [sampleOrder0; sampleOrder2] /\
  (forall o, In o [sampleOrder0; sampleOrder2] ->
     In o sampleOrders /\
     forall f, In f (OrdersArgs.filters args) ->
               filterAccepts exampleToNumber f o = Normal true).
Proof.
  intros args.
  assert (H : ordersResolver exampleToNumber sampleOrders args
              = Normal [sampleOrder0; sampleOrder2]) by reflexivity.
  split; [exact H|].
  exact (proj1 (ordersResolver_returns_the_matching_records
                  exampleToNumber sampleOrders args _ H)).
Defined.

Lemma ordersResolver_result_is_bounded_witness :
  let args :=
    {| OrdersArgs.sort := []; OrdersArgs.filters := [];
       OrdersArgs.limit := 2 |} in
  ordersResolver exampleToNumber sampleOrders args
  = Normal [sampleOrder0; sampleOrder1] /\
  (length [sampleOrder0; sampleOrder1] <= length sampleOrders)%nat.
Proof.
  intros args.
  assert (H : ordersResolver exampleToNumber sampleOrders args
              = Normal [sampleOrder0; sampleOrder1]) by reflexivity.
  split; [exact H|].
  exact (proj1 (ordersResolver_result_is_bounded
                  exampleToNumber sampleOrders args _ H)).
Defined.

Lemma ordersResolver_reports_first_malformed_clause_witness :
  let good :=
    {| OrderFilter.field := OrderField.salt;
       OrderFilter.kind := FilterKind.Less;
       OrderFilter.value := JsStr (units "2") |} in
  let bad :=
    {| OrderFilter.field := OrderField.salt;
       OrderFilter.kind := units "BETWEEN";
       OrderFilter.value := JsStr (units "2") |} in
  let worse :=
    {| OrderFilter.field := OrderField.salt;
       OrderFilter.kind := units "LIKE";
       OrderFilter.value := JsStr (units "2") |} in
  ordersResolver exampleToNumber sampleOrders
    {| OrdersArgs.sort :=
         [{| OrderSort.field := OrderField.hash;
             OrderSort.direction := units "UP" |}];
       OrdersArgs.filters := [good; bad; worse];
       OrdersArgs.limit := 20 |}
  = Throw (units "unexpected filter kind: " ++ units "BETWEEN").
Proof.
  intros good bad worse.
  apply (proj1 (ordersResolver_reports_first_malformed_clause
                  exampleToNumber sampleOrders _ [good; bad; worse] 20)
           [good] bad [worse] eq_refl).
  - intros f [<-|[]]. reflexivity.
  - reflexivity.
Defined.

Lemma default_sort_keeps_store_order_witness :
  Sorted (fun a b => String_lessThan (hash b) (hash a) = false)
    sampleOrders /\
  ordersResolver exampleToNumber sampleOrders
    {| OrdersArgs.sort := defaultSort; OrdersArgs.filters := [];
       OrdersArgs.limit := 20 |}
  = Normal (R.take 20 (R.filter (R.allPass []) sampleOrders)).
Proof.
  assert (H : Sorted (fun a b => String_lessThan (hash b) (hash a) = false)
                sampleOrders)
    by (repeat constructor).
  split; [exact H|].
  exact (default_sort_keeps_store_order exampleToNumber sampleOrders
           [] [] 20 H eq_refl).
Defined.

Lemma equality_across_types_never_holds_witness :
  OrderField.makerAssetAmount <> OrderField.chainId /\
  filterAccepts exampleToNumber
    {| OrderFilter.field := OrderField.makerAssetAmount;
       OrderFilter.kind := FilterKind.Equal;
       OrderFilter.value := JsNum (IntToNumber 2000000) |} sampleOrder2
  = Normal false.
Proof.
  assert (H : OrderField.makerAssetAmount <> OrderField.chainId)
    by discriminate.
  split; [exact H|].
  exact (proj1 (proj1 (equality_across_types_never_holds
                         exampleToNumber sampleOrders)
                  sampleOrder2 OrderField.makerAssetAmount
                  (IntToNumber 2000000) H)).
Defined.

Lemma equal_length_digits_compare_as_numbers_witness :
  prop sampleOrder1 OrderField.makerAssetAmount
  = JsStr (units "50911000000000000") /\
  allDigits (units "50911000000000000") = true /\
  allDigits (units "50000000000000000") = true /\
  length (units "50911000000000000") = length (units "50000000000000000") /\
  exists a b,
    decimalValue (units "50911000000000000") = Some a /\
    decimalValue (units "50000000000000000") = Some b /\
    filterAccepts exampleToNumber
      {| OrderFilter.field := OrderField.makerAssetAmount;
         OrderFilter.kind := FilterKind.Greater;
         OrderFilter.value := JsStr (units "50000000000000000") |}
      sampleOrder1
    = Normal (b <? a).
Proof.
  repeat (split; [reflexivity|]).
  destruct (equal_length_digits_compare_as_numbers exampleToNumber
              sampleOrder1 OrderField.makerAssetAmount
              (units "50911000000000000") (units "50000000000000000")
              eq_refl eq_refl eq_refl eq_refl)
    as (a & b & Ha & Hb & Hgt & _).
  exists a, b. auto.
Defined.

Lemma smaller_limit_returns_prefix_witness :
  0 <= 1 /\ (1 <= 2 \/ 2 < 0) /\
  ordersResolver exampleToNumber sampleOrders
    {| OrdersArgs.sort := []; OrdersArgs.filters := [];
       OrdersArgs.limit := 2 |}
  = Normal [sampleOrder0; sampleOrder1] /\
  ordersResolver exampleToNumber sampleOrders
    {| OrdersArgs.sort := []; OrdersArgs.filters := [];
       OrdersArgs.limit := 1 |}
  = Normal (firstn (Z.to_nat 1) [sampleOrder0; sampleOrder1]).
Proof.
  assert (H0 : 0 <= 1) by lia.
  assert (H1 : 1 <= 2 \/ 2 < 0) by (left; lia).
  assert (H : ordersResolver exampleToNumber sampleOrders
                {| OrdersArgs.sort := []; OrdersArgs.filters := [];
                   OrdersArgs.limit := 2 |}
              = Normal [sampleOrder0; sampleOrder1]) by reflexivity.
  repeat (split; [assumption|]).
  exact (smaller_limit_returns_prefix exampleToNumber sampleOrders
           [] [] 1 2 _ H0 H1 H).
Defined.

Lemma filter_order_is_irrelevant_witness :
  let f1 :=
    {| OrderFilter.field := OrderField.makerFee;
       OrderFilter.kind := FilterKind.NotEqual;
       OrderFilter.value := JsStr (units "0") |} in
  let f2 :=
    {| OrderFilter.field := OrderField.takerFee;
       OrderFilter.kind := FilterKind.Equal;
       OrderFilter.value := JsStr (units "0") |} in
  Permutation [f1; f2] [f2; f1] /\
  ordersResolver exampleToNumber sampleOrders
    {| OrdersArgs.sort := []; OrdersArgs.filters := [f1; f2];
       OrdersArgs.limit := 20 |} = Normal [sampleOrder0] /\
  ordersResolver exampleToNumber sampleOrders
    {| OrdersArgs.sort := []; OrdersArgs.filters := [f2; f1];
       OrdersArgs.limit := 20 |} = Normal [sampleOrder0].
Proof.
  intros f1 f2.
  assert (Hperm : Permutation [f1; f2] [f2; f1]) by apply perm_swap.
  assert (H : ordersResolver exampleToNumber sampleOrders
                {| OrdersArgs.sort := []; OrdersArgs.filters := [f1; f2];
                   OrdersArgs.limit := 20 |} = Normal [sampleOrder0])
    by reflexivity.
  split; [exact Hperm|]. split; [exact H|].
  exact (filter_order_is_irrelevant exampleToNumber sampleOrders
           [] [f1; f2] [f2; f1] 20 _ Hperm H).
Defined.

Lemma sorted_result_is_determined_witness :
  let args :=
    {| OrdersArgs.sort := []; OrdersArgs.filters := [];
       OrdersArgs.limit := 2 |} in
  ordersResolver exampleToNumber sampleOrders args
  = Normal [sampleOrder0; sampleOrder1] /\
  [sampleOrder0; sampleOrder1] = R.take 2 sampleOrders.
Proof.
  intros args.
  assert (H : ordersResolver exampleToNumber sampleOrders args
              = Normal [sampleOrder0; sampleOrder1]) by reflexivity.
  split; [exact H|].
  apply (sorted_result_is_determined exampleToNumber sampleOrders args
           [] _ sampleOrders eq_refl H).
  - reflexivity.
  - repeat constructor; unfold precedes; simpl; lia.
  - intros z. reflexivity.
Defined.

Lemma descending_reverses_ascending_witness :
  List.NoDup
    (List.map (fun order => prop order OrderField.hash) sampleOrders) /\
  ordersResolver exampleToNumber sampleOrders
    {| OrdersArgs.sort :=
         [{| OrderSort.field := OrderField.hash;
             OrderSort.direction := SortDirection.Desc |}];
       OrdersArgs.filters := []; OrdersArgs.limit := -1 |}
  = Normal (rev sampleOrders).
Proof.
  assert (Hnd : List.NoDup
                  (List.map (fun order => prop order OrderField.hash)
                     sampleOrders)).
  { repeat constructor; simpl; intros H;
      repeat (destruct H as [H|H]; [vm_compute in H; discriminate|]);
      exact H. }
  split; [exact Hnd|].
  apply (descending_reverses_ascending exampleToNumber sampleOrders
           OrderField.hash [] (-1) sampleOrders Hnd); [lia | reflexivity].
Defined.

Lemma greater_than_9_rejects_10_witness :
  makerAssetAmount (base orderOfAmount10) = units "10" /\
  decimalValue (units "10") = Some 10 /\
  decimalValue (units "9") = Some 9 /\
  filterAccepts exampleToNumber
    {| OrderFilter.field := OrderField.makerAssetAmount;
       OrderFilter.kind := FilterKind.Greater;
       OrderFilter.value := JsStr (units "9") |} orderOfAmount10
  = Normal false /\
  ordersResolver exampleToNumber [orderOfAmount10]
    {| OrdersArgs.sort := [];
       OrdersArgs.filters :=
         [{| OrderFilter.field := OrderField.makerAssetAmount;
             OrderFilter.kind := FilterKind.Greater;
             OrderFilter.value := JsStr (units "9") |}];
       OrdersArgs.limit := 20 |}
  = Normal [] /\
  ordersResolver exampleToNumber sampleOrders
    {| OrdersArgs.sort := [];
       OrdersArgs.filters :=
         [{| OrderFilter.field := OrderField.makerAssetAmount;
             OrderFilter.kind := FilterKind.Greater;
             OrderFilter.value := JsStr (units "9") |}];
       OrdersArgs.limit := 20 |}
  = Normal [].
Proof.
  assert (H : makerAssetAmount (base orderOfAmount10) = units "10")
    by reflexivity.
  destruct (greater_than_9_rejects_10 exampleToNumber [orderOfAmount10]
              orderOfAmount10 H) as (H10 & H9 & Hrej & _).
  repeat (split; [assumption|]). split; reflexivity.
Defined.

Lemma negative_limit_returns_every_match_witness :
  let args := {| OrdersArgs.sort := []; OrdersArgs.filters := [];
                 OrdersArgs.limit := -1 |} in
  OrdersArgs.limit args < 0 /\
  ordersResolver exampleToNumber sampleOrders args = Normal sampleOrders /\
  length sampleOrders = 3%nat.
Proof.
  intros args.
  assert (Hneg : OrdersArgs.limit args < 0) by (simpl; lia).
  destruct (negative_limit_returns_every_match exampleToNumber sampleOrders
              args [] [] eq_refl eq_refl Hneg) as (out & Hout & -> & _).
  split; [exact Hneg|]. split; [exact Hout | reflexivity].
Defined.

(** The second sample order expires at 1592663792 and the third at
    1592208000000; sorted by expiration, [ASC], the third comes first. *)
Lemma ascending_sort_puts_larger_number_first_witness :
  let args :=
    {| OrdersArgs.sort :=
         [{| OrderSort.field := OrderField.expirationTimeSeconds;
             OrderSort.direction := SortDirection.Asc |}];
       OrdersArgs.filters := []; OrdersArgs.limit := 20 |} in
  decimalValue (expirationTimeSeconds (base sampleOrder2))
  = Some 1592208000000 /\
  decimalValue (expirationTimeSeconds (base sampleOrder1))
  = Some 1592663792 /\
  1592663792 < 1592208000000 /\
  ordersResolver exampleToNumber sampleOrders args
  = Normal [sampleOrder2; sampleOrder1; sampleOrder0] /\
  ~ In sampleOrder2 [sampleOrder0].
Proof.
  intros args.
  assert (Hlt : code_units_lt
                  (expirationTimeSeconds (base sampleOrder2))
                  (expirationTimeSeconds (base sampleOrder1)))
    by (apply String_lessThan_spec; reflexivity).
  assert (Hnum : 1592663792 < 1592208000000) by lia.
  assert (H : ordersResolver exampleToNumber sampleOrders args
              = Normal [sampleOrder2; sampleOrder1; sampleOrder0])
    by reflexivity.
  repeat (split; [reflexivity || assumption|]).
  exact (ascending_sort_puts_larger_number_first exampleToNumber
           sampleOrders sampleOrder2 sampleOrder1
           OrderField.expirationTimeSeconds _ _ _ _
           eq_refl eq_refl eq_refl eq_refl Hnum Hlt
           [] [] 20 _ H [sampleOrder2] [sampleOrder0] eq_refl).
Defined.
